(** * Bias Detection Dashboard: the analysis core [bias_analysis] of app.py

    A shallow embedding of [bias_analysis(df, sensitive, target)] and of the
    part of pandas it calls, followed by the properties of the report it
    returns and of the effect it has on the caller's table.

    Modelling conventions.
    - A pandas float (float64) is an exact rational or NaN: [F := option Q],
      [None] being NaN.  Rounding and infinities are not modelled; the
      thresholds 0.7, 0.2, 0.1 and 0.8 are the rationals 7/10, 1/5, 1/10, 4/5.
      Where float64 can turn a number into NaN or an infinity (a mean that
      overflows, inf - inf, inf / inf), the properties of a field are
      stated for the case that the field is a number, so that they hold of
      the float64 computation as well.
    - A column is either of a numeric dtype (int64, float64, bool: the dtypes
      for which [pd.api.types.is_numeric_dtype] answers True) or of dtype
      object (text).  A missing cell (NaN) is [None] in both.
    - [df] is passed by reference: the analysis is a computation in a state
      and exception monad whose state is the caller's DataFrame; what an
      assignment [df[c] = ...] did before an exception stays done. *)

From Stdlib Require Import List String Ascii Bool Arith ZArith QArith Qminmax.
From Stdlib Require Import Lia Lqa Permutation Sorted Qround RelationClasses.
Import ListNotations.

Local Open Scope string_scope.
Local Open Scope list_scope.
Local Open Scope Q_scope.

(* ------------------------------------------------------------------ *)
(** ** Floats                                                          *)
(* ------------------------------------------------------------------ *)

Module Float.

(** A float64 value: a rational, or NaN ([None]). *)
Definition F : Type := option Q.

Definition nan : F := None.

(** [a - b]; NaN propagates. *)
Definition sub (a b : F) : F :=
  match a, b with
  | Some x, Some y => Some (x - y)
  | _, _ => None
  end.

(** [a / b]; NaN propagates and 0/0 is NaN.  The analysis divides only
    under the guard [b > 0]. *)
Definition div (a b : F) : F :=
  match a, b with
  | Some x, Some y => if Qeq_bool y 0 then None else Some (x / y)
  | _, _ => None
  end.

Definition Qlt_bool (x y : Q) : bool := negb (Qle_bool y x).

(** [a > b]; every comparison with NaN is False. *)
Definition gt (a b : F) : bool :=
  match a, b with
  | Some x, Some y => Qlt_bool y x
  | _, _ => false
  end.

(** [a < b]. *)
Definition lt (a b : F) : bool := gt b a.


(** Maximum and minimum of a sequence with [skipna=True]: NaN entries are
    ignored, and the result is NaN when nothing is left. *)
Fixpoint nanmax (l : list F) : F :=
  match l with
  | [] => None
  | None :: t => nanmax t
  | Some x :: t =>
      match nanmax t with
      | None => Some x
      | Some m => Some (Qmax x m)
      end
  end.

Fixpoint nanmin (l : list F) : F :=
  match l with
  | [] => None
  | None :: t => nanmin t
  | Some x :: t =>
      match nanmin t with
      | None => Some x
      | Some m => Some (Qmin x m)
      end
  end.

(** The values left after dropping NaN. *)
Fixpoint dropna (l : list F) : list Q :=
  match l with
  | [] => []
  | None :: t => dropna t
  | Some x :: t => x :: dropna t
  end.

Definition Qsum (l : list Q) : Q := fold_right Qplus 0 l.

(** Arithmetic mean with [skipna=True]; NaN when every entry is NaN. *)
Definition nanmean (l : list F) : F :=
  match dropna l with
  | [] => None
  | x :: t => Some (Qsum (x :: t) / inject_Z (Z.of_nat (List.length (x :: t))))
  end.

End Float.

Import Float.

(* ------------------------------------------------------------------ *)
(** ** Columns, keys and tables                                        *)
(* ------------------------------------------------------------------ *)

(** A column of a DataFrame, by the one distinction the analysis makes:
    numeric cells are rationals, the cells of any other dtype are text. *)
Inductive column : Type :=
| NumCol (cells : list (option Q))        (* int64, float64, bool *)
| ObjCol (cells : list (option string)).  (* object: text *)

(** [pd.api.types.is_numeric_dtype] *)
Definition is_numeric_dtype (c : column) : bool :=
  match c with
  | NumCol _ => true
  | ObjCol _ => false
  end.

(** A present (non-missing) cell seen as a group label. *)
Inductive key : Type :=
| KNum (q : Q)
| KStr (s : string).

(** Equality of labels as pandas' hash tables see it: numbers by value. *)
Definition key_eqb (a b : key) : bool :=
  match a, b with
  | KNum x, KNum y => Qeq_bool x y
  | KStr x, KStr y => String.eqb x y
  | _, _ => false
  end.

(** The sort order of labels within one column (numbers by value, text by
    code unit); labels of different kinds never meet in one column. *)
Definition key_leb (a b : key) : bool :=
  match a, b with
  | KNum x, KNum y => Qle_bool x y
  | KStr x, KStr y => String.leb x y
  | KNum _, KStr _ => true
  | KStr _, KNum _ => false
  end.

Definition column_keys (c : column) : list (option key) :=
  match c with
  | NumCol cells => map (option_map KNum) cells
  | ObjCol cells => map (option_map KStr) cells
  end.

Definition column_len (c : column) : nat :=
  match c with
  | NumCol cells => List.length cells
  | ObjCol cells => List.length cells
  end.

(** A DataFrame: the length of its index and its columns in order. *)
Record DataFrame : Type := mkDataFrame {
  index_len : nat;
  frame_columns : list (string * column)
}.

(** Every column is as long as the index. *)
Definition wf_frame (df : DataFrame) : bool :=
  forallb (fun nc => Nat.eqb (column_len (snd nc)) (index_len df))
          (frame_columns df).

Fixpoint lookup_column (name : string) (cols : list (string * column))
  : option column :=
  match cols with
  | [] => None
  | (n, c) :: rest => if String.eqb n name then Some c
                      else lookup_column name rest
  end.

(** [df[name] = c] on the column list: an existing column is replaced where
    it stands, a new one is appended. *)
Fixpoint assign_column (name : string) (c : column)
         (cols : list (string * column)) : list (string * column) :=
  match cols with
  | [] => [(name, c)]
  | (n, c0) :: rest => if String.eqb n name then (n, c) :: rest
                       else (n, c0) :: assign_column name c rest
  end.

(* ------------------------------------------------------------------ *)
(** ** Exceptions and the monad of the analysis                        *)
(* ------------------------------------------------------------------ *)

Inductive exn : Type :=
| KeyError (name : string)     (* df[name] on an absent column *)
| ValueError                   (* argmax of an empty sequence *)
| TypeError.                   (* mean of a non-numeric column *)

(** The name of the Python class of an exception. *)
Definition exn_class (e : exn) : string :=
  match e with
  | KeyError _ => "KeyError"
  | ValueError => "ValueError"
  | TypeError => "TypeError"
  end.

Module DfM.

(** A computation over the caller's DataFrame: it ends with an exception
    or a value, and in either case with the table as it then is. *)
Definition M (A : Type) : Type := DataFrame -> (exn + A) * DataFrame.

Definition ret {A} (a : A) : M A := fun df => (inr a, df).

Definition raise {A} (e : exn) : M A := fun df => (inl e, df).

Definition bind {A B} (m : M A) (k : A -> M B) : M B :=
  fun df =>
    match m df with
    | (inl e, df') => (inl e, df')
    | (inr a, df') => k a df'
    end.

(** [df[name]] *)
Definition getitem (name : string) : M column :=
  fun df =>
    match lookup_column name (frame_columns df) with
    | Some c => (inr c, df)
    | None => (inl (KeyError name), df)
    end.

(** [df[name] = c] *)
Definition setitem (name : string) (c : column) : M unit :=
  fun df =>
    (inr tt, mkDataFrame (index_len df)
                         (assign_column name c (frame_columns df))).

(** [len(df)] *)
Definition len : M nat := fun df => (inr (index_len df), df).

(** [len(df.columns)] *)
Definition len_columns : M nat :=
  fun df => (inr (List.length (frame_columns df)), df).

End DfM.

Import DfM.

Notation "x <- m ;; k" := (bind m (fun x => k))
  (at level 61, m at next level, right associativity).
Notation "m ;;; k" := (bind m (fun _ => k))
  (at level 61, right associativity).

(* ------------------------------------------------------------------ *)
(** ** The pandas operations the analysis calls                        *)
(* ------------------------------------------------------------------ *)

(** Position of the first label equal to [k], counted from [i]. *)
Fixpoint find_code (k : key) (uniq : list key) (i : nat) : option nat :=
  match uniq with
  | [] => None
  | u :: rest => if key_eqb u k then Some i else find_code k rest (S i)
  end.

(** [pd.factorize]: one pass over the cells with the table [uniq] of the
    labels met so far.  A label already in the table keeps its code, a new
    one takes the next free code, a missing cell takes the sentinel -1.
    Returns the codes and the table. *)
Fixpoint factorize_from (uniq : list key) (cells : list (option key))
  : list Z * list key :=
  match cells with
  | [] => ([], uniq)
  | None :: rest =>
      let (codes, u) := factorize_from uniq rest in ((-1)%Z :: codes, u)
  | Some k :: rest =>
      match find_code k uniq 0 with
      | Some i =>
          let (codes, u) := factorize_from uniq rest in
          (Z.of_nat i :: codes, u)
      | None =>
          let (codes, u) := factorize_from (uniq ++ [k]) rest in
          (Z.of_nat (List.length uniq) :: codes, u)
      end
  end.

Definition factorize (c : column) : list Z * list key :=
  factorize_from [] (column_keys c).

(** The integer codes as a column of dtype int64. *)
Definition codes_column (codes : list Z) : column :=
  NumCol (map (fun z => Some (inject_Z z)) codes).

(** The distinct present labels of a column, in the order first met. *)
Definition unique (cells : list (option key)) : list key :=
  snd (factorize_from [] cells).

Definition cell_is (k : key) (c : option key) : bool :=
  match c with
  | Some k' => key_eqb k k'
  | None => false
  end.

Definition count_key (k : key) (cells : list (option key)) : nat :=
  List.length (filter (cell_is k) cells).

(** Stable insertion sort: [x] is put before the first [y] with [leb x y]. *)
Section Sort.
Context {A : Type} (leb : A -> A -> bool).

Fixpoint insert (x : A) (l : list A) : list A :=
  match l with
  | [] => [x]
  | y :: rest => if leb x y then x :: y :: rest else y :: insert x rest
  end.

Fixpoint isort (l : list A) : list A :=
  match l with
  | [] => []
  | x :: rest => insert x (isort rest)
  end.
End Sort.

(** [Series.value_counts()]: missing cells dropped, one entry per label,
    most frequent first.  pandas promises no order among labels with equal
    counts; here they stay in the order first met. *)
Definition value_counts (cells : list (option key)) : list (key * nat) :=
  isort (fun a b => Nat.leb (snd b) (snd a))
        (map (fun k => (k, count_key k cells)) (unique cells)).

(** [Series.value_counts(normalize=True)]: the counts over their sum. *)
Definition value_counts_normalize (cells : list (option key))
  : list (key * Q) :=
  let vc := value_counts cells in
  let total := list_sum (map snd vc) in
  map (fun kc => (fst kc, inject_Z (Z.of_nat (snd kc))
                          / inject_Z (Z.of_nat total))) vc.

(** First entry holding the largest value. *)
Fixpoint argmax (s : list (key * Q)) : option (key * Q) :=
  match s with
  | [] => None
  | p :: rest =>
      match argmax rest with
      | None => Some p
      | Some b => if Qle_bool (snd b) (snd p) then Some p else Some b
      end
  end.

(** [Series.idxmax()]: the label of the first largest value; ValueError on
    an empty series. *)
Definition idxmax (s : list (key * Q)) : M key :=
  match argmax s with
  | Some p => ret (fst p)
  | None => raise ValueError
  end.

(** [Series.max()] and [Series.min()] *)
Definition series_max {K : Type} (s : list (K * F)) : F := nanmax (map snd s).
Definition series_min {K : Type} (s : list (K * F)) : F := nanmin (map snd s).

Definition as_floats (s : list (key * Q)) : list (key * F) :=
  map (fun p => (fst p, Some (snd p))) s.

(** The target cells of the rows whose sensitive label is [k]. *)
Definition group_values (k : key) (ks : list (option key))
           (vs : list (option Q)) : list F :=
  map snd (filter (fun row => cell_is k (fst row)) (combine ks vs)).

(** [df.groupby(sensitive)[target].mean()]: rows with a missing label are
    dropped, the groups come sorted by label, the mean of a group skips
    missing target cells.  The mean of a column of dtype object is a
    TypeError. *)
Definition groupby_mean (sensitive target : string) : M (list (key * F)) :=
  scol <- getitem sensitive ;;
  tcol <- getitem target ;;
  match tcol with
  | NumCol vs =>
      let ks := column_keys scol in
      ret (map (fun k => (k, nanmean (group_values k ks vs)))
               (isort key_leb (unique ks)))
  | ObjCol _ => raise TypeError
  end.

(* ------------------------------------------------------------------ *)
(** ** bias_analysis                                                   *)
(* ------------------------------------------------------------------ *)

(** The dict [report] that [bias_analysis] returns, by key. *)
Record Report : Type := mkReport {
  target_encoded : bool;
  rows : nat;
  columns : nat;
  rep : list (key * Q);
  label_dist : list (key * F);
  rep_issue : bool;
  label_issue : bool;
  fairness_issue : bool;
  traffic : string;
  dominant_group : key;
  dominant_ratio : F;
  spd : F;
  di : F
}.

(** [sum([a, b, c])] on booleans. *)
Definition sum_bools (l : list bool) : nat :=
  fold_right (fun (b : bool) (n : nat) => ((if b then 1 else 0) + n)%nat)
             0%nat l.

(** Lines 32-36: the target column is made numeric in the table itself. *)
Definition ensure_numeric_target (target : string) : M bool :=
  tcol <- getitem target ;;
  if negb (is_numeric_dtype tcol) then
    tcol' <- getitem target ;;
    setitem target (codes_column (fst (factorize tcol'))) ;;;
    ret true
  else
    ret false.

Definition bias_analysis (sensitive target : string) : M Report :=
  encoded <- ensure_numeric_target target ;;
  nrows <- len ;;
  ncols <- len_columns ;;
  (* Representation bias *)
  scol <- getitem sensitive ;;
  let rep := value_counts_normalize (column_keys scol) in
  dominant_group <- idxmax rep ;;
  let dominant_ratio := series_max (as_floats rep) in
  let rep_issue := gt dominant_ratio (Some (7 # 10)) in
  (* Label bias *)
  label_dist <- groupby_mean sensitive target ;;
  let diff := sub (series_max label_dist) (series_min label_dist) in
  let label_issue := gt diff (Some (2 # 10)) in
  (* Fairness metrics *)
  let spd := diff in
  let di := if gt (series_max label_dist) (Some 0)
            then div (series_min label_dist) (series_max label_dist)
            else Some 1 in
  let fairness_issue := gt spd (Some (1 # 10)) || lt di (Some (8 # 10)) in
  let issues := sum_bools [rep_issue; label_issue; fairness_issue] in
  let traffic := if Nat.eqb issues 0 then "green"
                 else if Nat.eqb issues 1 then "yellow" else "red" in
  ret (mkReport encoded nrows ncols rep label_dist rep_issue label_issue
                fairness_issue traffic dominant_group dominant_ratio spd di).

(** The risk level the dashboard shows for a report (lines 121-126). *)
Inductive risk : Type := LOW | MODERATE | HIGH.

Definition risk_level (r : Report) : risk :=
  if String.eqb (traffic r) "green" then LOW
  else if String.eqb (traffic r) "yellow" then MODERATE
  else HIGH.

(* ------------------------------------------------------------------ *)
(** ** Sample tables                                                   *)
(* ------------------------------------------------------------------ *)

Module Samples.

Definition txt (l : list string) : column := ObjCol (map Some l).
Definition num (l : list Q) : column := NumCol (map Some l).

(** In the manner of Scenario A: ten rows, group A (8 rows, 7 hired) and
    group B (2 rows, 1 hired). *)
Definition scenario_a : DataFrame :=
  mkDataFrame 10
    [("group", txt ["A";"A";"A";"A";"A";"A";"A";"A";"B";"B"]);
     ("hired", num [1;1;1;1;1;1;1;0;1;0])].

(** Scenario C: a text target. *)
Definition scenario_c : DataFrame :=
  mkDataFrame 4
    [("group", txt ["A";"B";"A";"B"]);
     ("label", txt ["yes";"no";"no";"yes"])].

(** A table with no column at all. *)
Definition no_columns : DataFrame := mkDataFrame 0 [].

(** A text target, but the sensitive column asked for is absent. *)
Definition no_sensitive : DataFrame :=
  mkDataFrame 2 [("label", txt ["yes";"no"])].

(** A numeric target whose cells are all missing. *)
Definition blank_target : DataFrame :=
  mkDataFrame 2
    [("group", txt ["A";"A"]);
     ("score", NumCol [None; None])].

(** One group only, a text target and a missing label. *)
Definition one_group : DataFrame :=
  mkDataFrame 3
    [("group", ObjCol [Some "A"; None; Some "A"]);
     ("label", txt ["yes"; "no"; "no"])].

(** No row, but both columns. *)
Definition no_rows : DataFrame :=
  mkDataFrame 0 [("group", ObjCol []); ("label", ObjCol [])].

End Samples.

(* ------------------------------------------------------------------ *)
(** ** What the properties are stated with                             *)
(* ------------------------------------------------------------------ *)

(** The distinct present labels of a sequence of cells, in the order of
    their first occurrence: the head label, then the distinct labels of the
    rest that differ from it. *)
Fixpoint first_seen (cells : list (option key)) : list key :=
  match cells with
  | [] => []
  | None :: rest => first_seen rest
  | Some k :: rest =>
      k :: filter (fun k' => negb (key_eqb k k')) (first_seen rest)
  end.

(** No two labels of the list are equal. *)
Fixpoint distinct_keys (l : list key) : bool :=
  match l with
  | [] => true
  | k :: rest => negb (existsb (key_eqb k) rest) && distinct_keys rest
  end.

Definition has_column (name : string) (df : DataFrame) : bool :=
  match lookup_column name (frame_columns df) with
  | Some _ => true
  | None => false
  end.

(** The cell is not missing. *)
Definition present (cell : option key) : bool :=
  match cell with Some _ => true | None => false end.

(** The column has a cell that is not missing. *)
Definition has_value (c : column) : bool :=
  existsb present (column_keys c).

(** The label is in the table of labels. *)
Definition in_table (uniq : list key) (k : key) : bool :=
  existsb (fun u => key_eqb u k) uniq.

Definition column_has_value (name : string) (df : DataFrame) : bool :=
  match lookup_column name (frame_columns df) with
  | Some c => has_value c
  | None => false
  end.

(** The preconditions of the analysis: two different column names, both in
    the table, and a sensitive column with at least one value (so the table
    has at least one row). *)
Definition valid_input (df : DataFrame) (sensitive target : string) : bool :=
  negb (String.eqb sensitive target)
  && has_column target df
  && column_has_value sensitive df.

(** Number of distinct values of a column of the table (0 if absent). *)
Definition n_distinct (name : string) (df : DataFrame) : nat :=
  match lookup_column name (frame_columns df) with
  | Some c => List.length (first_seen (column_keys c))
  | None => 0
  end.

(** Number of flags that are set. *)
Definition true_flags (r : Report) : nat :=
  List.length
    (filter (fun b : bool => b) [rep_issue r; label_issue r; fairness_issue r]).

(** The risk level that goes with a number of set flags. *)
Definition risk_of_count (n : nat) : risk :=
  match n with
  | O => LOW
  | S O => MODERATE
  | S (S _) => HIGH
  end.

(** A report with its [target_encoded] entry replaced. *)
Definition with_target_encoded (b : bool) (r : Report) : Report :=
  mkReport b (rows r) (columns r) (rep r) (label_dist r) (rep_issue r)
           (label_issue r) (fairness_issue r) (traffic r)
           (dominant_group r) (dominant_ratio r) (spd r) (di r).

(** The table after [df[name] = c]. *)
Definition with_column (name : string) (c : column) (df : DataFrame)
  : DataFrame :=
  mkDataFrame (index_len df) (assign_column name c (frame_columns df)).

(** The exception of an input with an absent column or a sensitive column
    without a value: the target is looked up first, then the sensitive
    column, then the largest proportion. *)
Definition input_error (df : DataFrame) (sensitive target : string) : exn :=
  if has_column target df then
    if has_column sensitive df then ValueError else KeyError sensitive
  else KeyError target.

(** The table the caller holds once the target column has been looked at:
    a text target has been replaced by its codes, anything else is as it
    was. *)
Definition coerce_target (target : string) (df : DataFrame) : DataFrame :=
  match lookup_column target (frame_columns df) with
  | Some (ObjCol cells) =>
      with_column target (codes_column (fst (factorize (ObjCol cells)))) df
  | _ => df
  end.

(** The group means of a numeric target [vs] by the labels [ks]. *)
Definition group_means (ks : list (option key)) (vs : list (option Q))
  : list (key * F) :=
  map (fun k => (k, nanmean (group_values k ks vs)))
      (isort key_leb (unique ks)).

(** The report in closed form, from the values read off the table. *)
Definition make_report (encoded : bool) (nrows ncols : nat)
           (rep : list (key * Q)) (dominant_group : key)
           (label_dist : list (key * F)) : Report :=
  let dominant_ratio := series_max (as_floats rep) in
  let rep_issue := gt dominant_ratio (Some (7 # 10)) in
  let diff := sub (series_max label_dist) (series_min label_dist) in
  let label_issue := gt diff (Some (2 # 10)) in
  let di := if gt (series_max label_dist) (Some 0)
            then div (series_min label_dist) (series_max label_dist)
            else Some 1 in
  let fairness_issue := gt diff (Some (1 # 10)) || lt di (Some (8 # 10)) in
  let issues := sum_bools [rep_issue; label_issue; fairness_issue] in
  let traffic := if Nat.eqb issues 0 then "green"
                 else if Nat.eqb issues 1 then "yellow" else "red" in
  mkReport encoded nrows ncols rep label_dist rep_issue label_issue
           fairness_issue traffic dominant_group dominant_ratio diff di.

(* ------------------------------------------------------------------ *)
(** ** The dashboard around the analysis                               *)
(* ------------------------------------------------------------------ *)

(** [df.columns] *)
Definition df_columns (df : DataFrame) : list string :=
  map fst (frame_columns df).

(** Lines 87-90: the choices of the target box,
    [[c for c in df.columns if c != sensitive]]. *)
Definition target_options (df : DataFrame) (sensitive : string)
  : list string :=
  filter (fun c => negb (String.eqb c sensitive)) (df_columns df).

(** [a * b] on floats; NaN propagates. *)
Definition fmul (a b : F) : F :=
  match a, b with
  | Some x, Some y => Some (x * y)
  | _, _ => None
  end.

(** Python's [int(x)] on a float: truncation towards zero, and a ValueError
    on NaN. *)
Definition py_int (x : F) : exn + Z :=
  match x with
  | Some q => inr (if Qle_bool 0 q then Qfloor q else Qceiling q)
  | None => inl ValueError
  end.

(** Line 186: [int(result["dominant_ratio"] * len(df))]. *)
Definition affected_rows (result : Report) (df : DataFrame) : exn + Z :=
  py_int (fmul (dominant_ratio result)
               (Some (inject_Z (Z.of_nat (index_len df))))).

(** The proportions are in decreasing order. *)
Definition decreasing (s : list (key * Q)) : Prop :=
  StronglySorted (fun a b => snd b <= snd a) s.

(** Each label is at most the next one in the sort order of labels. *)
Definition label_sorted (s : list (key * F)) : Prop :=
  Sorted (fun a b => key_leb (fst a) (fst b) = true) s.

(* ------------------------------------------------------------------ *)
(** ** The analysis on the sample tables                               *)
(* ------------------------------------------------------------------ *)

(** Group A holds 8 rows of 10 and is hired at 7/8 against 1/2: the three
    flags are set and the light is red. *)
Example scenario_a_report :
  fst (bias_analysis "group" "hired" Samples.scenario_a)
  = inr (mkReport false 10 2
           [(KStr "A", 8 / 10); (KStr "B", 2 / 10)]
           [(KStr "A", Some (7 / 8)); (KStr "B", Some (1 / 2))]
           true true true "red" (KStr "A") (Some (8 / 10))
           (Some (7 / 8 - 1 / 2)) (Some (1 / 2 / (7 / 8)))).
Proof. reflexivity. Qed.

(** Scenario C: "yes" is met first and gets the code 0, "no" the code 1. *)
Example scenario_c_codes :
  factorize (Samples.txt ["yes"; "no"; "no"; "yes"])
  = ([0; 1; 1; 0]%Z, [KStr "yes"; KStr "no"]).
Proof. reflexivity. Qed.

(** A missing cell gets the code -1 and no place among the labels. *)
Example factorize_missing :
  factorize (ObjCol [None; Some "b"; Some "a"; None; Some "b"])
  = ([-1; 0; 1; -1; 0]%Z, [KStr "b"; KStr "a"]).
Proof. reflexivity. Qed.

(** The most frequent label comes first; missing cells are not counted. *)
Example value_counts_order :
  value_counts [Some (KStr "x"); None; Some (KStr "y"); Some (KStr "y")]
  = [(KStr "y", 2%nat); (KStr "x", 1%nat)].
Proof. reflexivity. Qed.

(* ------------------------------------------------------------------ *)
(** ** Labels                                                          *)
(* ------------------------------------------------------------------ *)

Lemma key_eqb_refl (k : key) : key_eqb k k = true.
Proof.
  destruct k; simpl.
  - apply Qeq_bool_refl.
  - apply String.eqb_refl.
Qed.

Lemma key_eqb_sym (a b : key) : key_eqb a b = key_eqb b a.
Proof.
  destruct a, b; simpl; auto.
  - apply Qeq_bool_comm.
  - apply String.eqb_sym.
Qed.

Lemma key_eqb_trans (a b c : key) :
  key_eqb a b = true -> key_eqb b c = true -> key_eqb a c = true.
Proof.
  destruct a, b, c; simpl; try discriminate.
  - apply Qeq_bool_trans.
  - rewrite !String.eqb_eq. congruence.
Qed.

(** Equal labels are equal to the same labels. *)
Lemma key_eqb_congr (a b c : key) :
  key_eqb a b = true -> key_eqb a c = key_eqb b c.
Proof.
  intro Hab.
  destruct (key_eqb b c) eqn:Hbc.
  - eapply key_eqb_trans; eauto.
  - destruct (key_eqb a c) eqn:Hac; auto.
    rewrite key_eqb_sym in Hab.
    rewrite <- Hbc. symmetry. eapply key_eqb_trans; eauto.
Qed.

Lemma existsb_key_congr (a b : key) (l : list key) :
  key_eqb a b = true -> existsb (key_eqb a) l = existsb (key_eqb b) l.
Proof.
  intro Hab. induction l as [|x l IH]; simpl; auto.
  rewrite IH. f_equal. now apply key_eqb_congr.
Qed.

(* ------------------------------------------------------------------ *)
(** ** factorize and the labels in first-seen order                    *)
(* ------------------------------------------------------------------ *)

Lemma find_code_none (k : key) (uniq : list key) (i : nat) :
  find_code k uniq i = None <-> in_table uniq k = false.
Proof.
  unfold in_table.
  revert i. induction uniq as [|u rest IH]; intro i; simpl.
  - tauto.
  - destruct (key_eqb u k); simpl.
    + split; discriminate.
    + apply IH.
Qed.

Lemma find_code_some (k : key) (uniq : list key) (i j : nat) :
  find_code k uniq i = Some j ->
  exists n u, j = (i + n)%nat /\ nth_error uniq n = Some u
              /\ key_eqb u k = true.
Proof.
  revert i. induction uniq as [|u rest IH]; intro i; simpl.
  - discriminate.
  - destruct (key_eqb u k) eqn:E.
    + intros [= <-]. exists 0%nat, u. rewrite Nat.add_0_r. auto.
    + intro H. destruct (IH _ H) as (n & u' & -> & Hn & Hu).
      exists (S n), u'. repeat split; auto; lia.
Qed.

Lemma in_table_app (u v : list key) (k : key) :
  in_table (u ++ v) k = in_table u k || in_table v k.
Proof. unfold in_table. apply existsb_app. Qed.

Lemma in_table_congr (uniq : list key) (a b : key) :
  key_eqb a b = true -> in_table uniq a = in_table uniq b.
Proof.
  intro Hab. unfold in_table.
  induction uniq as [|u rest IH]; simpl; auto.
  rewrite IH. f_equal.
  rewrite (key_eqb_sym u a), (key_eqb_sym u b). now apply key_eqb_congr.
Qed.

Lemma filter_filter {A : Type} (f g : A -> bool) (l : list A) :
  filter f (filter g l) = filter (fun x => g x && f x) l.
Proof.
  induction l as [|x l IH]; simpl; auto.
  destruct (g x); simpl; [destruct (f x)|]; rewrite IH; reflexivity.
Qed.

(** The table of [factorize_from] grows by the new labels, in first-seen
    order. *)
Lemma factorize_from_uniques (cells : list (option key)) :
  forall uniq,
    snd (factorize_from uniq cells)
    = uniq ++ filter (fun k => negb (in_table uniq k)) (first_seen cells).
Proof.
  induction cells as [|[k|] rest IH]; intro uniq; simpl.
  - now rewrite app_nil_r.
  - destruct (find_code k uniq 0) as [i|] eqn:E.
    + assert (Hk : in_table uniq k = true).
      { destruct (in_table uniq k) eqn:T; auto.
        apply find_code_none with (i := 0%nat) in T. congruence. }
      specialize (IH uniq).
      destruct (factorize_from uniq rest) as [codes u]. simpl in *.
      rewrite Hk. simpl. rewrite filter_filter. rewrite IH. f_equal.
      apply filter_ext_in. intros x _.
      destruct (key_eqb k x) eqn:Ex; simpl; auto.
      now rewrite <- (in_table_congr uniq k x Ex), Hk.
    + apply find_code_none in E.
      specialize (IH (uniq ++ [k])).
      destruct (factorize_from (uniq ++ [k]) rest) as [codes u]. simpl in *.
      rewrite E. simpl. rewrite filter_filter. rewrite IH.
      rewrite <- app_assoc. simpl. do 2 f_equal.
      apply filter_ext. intro x. rewrite in_table_app. simpl.
      rewrite orb_false_r, negb_orb. apply andb_comm.
  - specialize (IH uniq).
    destruct (factorize_from uniq rest) as [codes u]. exact IH.
Qed.

Lemma unique_first_seen (cells : list (option key)) :
  unique cells = first_seen cells.
Proof.
  unfold unique. rewrite factorize_from_uniques. simpl.
  induction (first_seen cells) as [|x l IH]; simpl; congruence.
Qed.

Lemma factorize_from_length (cells : list (option key)) :
  forall uniq,
    List.length (fst (factorize_from uniq cells)) = List.length cells.
Proof.
  induction cells as [|[k|] rest IH]; intro uniq; simpl; auto.
  - destruct (find_code k uniq 0).
    + specialize (IH uniq). destruct (factorize_from uniq rest). simpl in *.
      congruence.
    + specialize (IH (uniq ++ [k])).
      destruct (factorize_from (uniq ++ [k]) rest). simpl in *. congruence.
  - specialize (IH uniq). destruct (factorize_from uniq rest). simpl in *.
    congruence.
Qed.

(** A label of the table keeps its place in the final table. *)
Lemma factorize_from_keeps (cells : list (option key)) (uniq : list key)
      (j : nat) (u : key) :
  nth_error uniq j = Some u ->
  nth_error (snd (factorize_from uniq cells)) j = Some u.
Proof.
  intro H. rewrite factorize_from_uniques.
  rewrite nth_error_app1; auto.
  apply nth_error_Some. congruence.
Qed.

(** Every cell gets the position of its label in the final table, and a
    missing cell gets -1. *)
Lemma factorize_from_codes (cells : list (option key)) :
  forall uniq i c,
    nth_error cells i = Some c ->
    match c with
    | None => nth_error (fst (factorize_from uniq cells)) i = Some (-1)%Z
    | Some k =>
        exists j k',
          nth_error (fst (factorize_from uniq cells)) i = Some (Z.of_nat j)
          /\ nth_error (snd (factorize_from uniq cells)) j = Some k'
          /\ key_eqb k' k = true
    end.
Proof.
  induction cells as [|c0 rest IH]; intros uniq i c Hi.
  - destruct i; discriminate.
  - destruct c0 as [k0|]; simpl.
    + destruct (find_code k0 uniq 0) as [n|] eqn:E.
      * specialize (IH uniq).
        pose proof (factorize_from_keeps rest uniq) as Keep.
        destruct (factorize_from uniq rest) as [codes u]. simpl in *.
        destruct i as [|i]; simpl in *.
        -- injection Hi as <-.
           destruct (find_code_some _ _ _ _ E) as (m & x & Hm & Hx & Hxk).
           simpl in Hm. subst m. exists n, x. auto.
        -- apply (IH i c Hi).
      * specialize (IH (uniq ++ [k0])).
        pose proof (factorize_from_keeps rest (uniq ++ [k0])) as Keep.
        destruct (factorize_from (uniq ++ [k0]) rest) as [codes u].
        simpl in *.
        destruct i as [|i]; simpl in *.
        -- injection Hi as <-.
           exists (List.length uniq), k0. repeat split.
           ++ apply Keep. rewrite nth_error_app2 by lia.
              now rewrite Nat.sub_diag.
           ++ apply key_eqb_refl.
        -- apply (IH i c Hi).
    + specialize (IH uniq).
      destruct (factorize_from uniq rest) as [codes u]. simpl in *.
      destruct i as [|i]; simpl in *.
      * now injection Hi as <-.
      * apply (IH i c Hi).
Qed.

(* ------------------------------------------------------------------ *)
(** ** Properties of the labels in first-seen order                    *)
(* ------------------------------------------------------------------ *)

Lemma first_seen_in (cells : list (option key)) (k : key) :
  In k (first_seen cells) -> In (Some k) cells.
Proof.
  revert k. induction cells as [|[k0|] rest IH]; intros k; simpl.
  - tauto.
  - intros [->|H]; auto.
    apply filter_In in H. right. now apply IH.
  - intro H. right. now apply IH.
Qed.

Lemma first_seen_cover (cells : list (option key)) (k : key) :
  In (Some k) cells -> existsb (key_eqb k) (first_seen cells) = true.
Proof.
  induction cells as [|[k0|] rest IH]; simpl.
  - tauto.
  - intros [[= ->]|H].
    + now rewrite key_eqb_refl.
    + destruct (key_eqb k k0) eqn:E; simpl; auto.
      specialize (IH H). apply existsb_exists in IH.
      destruct IH as (x & Hx & Hkx).
      apply existsb_exists. exists x. split; auto.
      apply filter_In. split; auto.
      destruct (key_eqb k0 x) eqn:E0; auto.
      rewrite key_eqb_sym in E0.
      now rewrite (key_eqb_trans _ _ _ Hkx E0) in E.
  - intros [H|H]; [discriminate | auto].
Qed.

Lemma existsb_filter_none (k : key) (l : list key) :
  existsb (key_eqb k) (filter (fun k' => negb (key_eqb k k')) l) = false.
Proof.
  induction l as [|x l IH]; simpl; auto.
  destruct (key_eqb k x) eqn:E; simpl; auto. now rewrite E.
Qed.

Lemma distinct_keys_filter (f : key -> bool) (l : list key) :
  distinct_keys l = true -> distinct_keys (filter f l) = true.
Proof.
  induction l as [|x l IH]; simpl; auto.
  intro H. apply andb_prop in H. destruct H as [Hx Hl].
  destruct (f x); simpl; auto.
  rewrite (IH Hl), andb_true_r.
  apply negb_true_iff in Hx. apply negb_true_iff.
  destruct (existsb (key_eqb x) (filter f l)) eqn:E; auto.
  apply existsb_exists in E. destruct E as (y & Hy & Hxy).
  apply filter_In in Hy.
  assert (existsb (key_eqb x) l = true) by (apply existsb_exists; exists y; tauto).
  congruence.
Qed.

Lemma first_seen_distinct (cells : list (option key)) :
  distinct_keys (first_seen cells) = true.
Proof.
  induction cells as [|[k0|] rest IH]; simpl; auto.
  rewrite existsb_filter_none. simpl. now apply distinct_keys_filter.
Qed.

Lemma first_seen_nonempty (cells : list (option key)) :
  existsb present cells = true -> first_seen cells <> [].
Proof.
  induction cells as [|[k0|] rest IH]; simpl; try discriminate; auto.
Qed.

(* ------------------------------------------------------------------ *)
(** ** Sorting keeps the entries                                       *)
(* ------------------------------------------------------------------ *)

Section SortFacts.
Context {A : Type} (leb : A -> A -> bool).

Lemma insert_perm (x : A) (l : list A) :
  Permutation (insert leb x l) (x :: l).
Proof.
  induction l as [|y l IH]; simpl; auto.
  destruct (leb x y); auto.
  eapply perm_trans; [apply perm_skip, IH | apply perm_swap].
Qed.

Lemma isort_perm (l : list A) : Permutation (isort leb l) l.
Proof.
  induction l as [|x l IH]; simpl; auto.
  eapply perm_trans; [apply insert_perm | now apply perm_skip].
Qed.

Lemma isort_nil (l : list A) : isort leb l = [] -> l = [].
Proof.
  intro H. apply Permutation_nil. rewrite <- H.
  apply isort_perm.
Qed.
End SortFacts.

Lemma list_sum_perm (l l' : list nat) :
  Permutation l l' -> list_sum l = list_sum l'.
Proof.
  induction 1; simpl; lia.
Qed.

Lemma existsb_perm {A : Type} (f : A -> bool) (l l' : list A) :
  Permutation l l' -> existsb f l = existsb f l'.
Proof.
  induction 1; simpl; try congruence.
  destruct (f x), (f y); reflexivity.
Qed.

Lemma distinct_keys_perm (l l' : list key) :
  Permutation l l' -> distinct_keys l = distinct_keys l'.
Proof.
  induction 1; simpl.
  - reflexivity.
  - now rewrite IHPermutation, (existsb_perm _ _ _ H).
  - rewrite (key_eqb_sym y x).
    destruct (key_eqb x y), (existsb (key_eqb x) l),
      (existsb (key_eqb y) l), (distinct_keys l); reflexivity.
  - congruence.
Qed.

(* ------------------------------------------------------------------ *)
(** ** Counting the cells of each label                                *)
(* ------------------------------------------------------------------ *)

(** Among distinct labels, a cell is counted by exactly one of them. *)
Lemma hits_none (c : key) (l : list key) :
  existsb (fun k => key_eqb k c) l = false ->
  list_sum (map (fun k => if key_eqb k c then 1%nat else 0%nat) l) = 0%nat.
Proof.
  induction l as [|x l IH]; simpl; auto.
  destruct (key_eqb x c); simpl; [discriminate | auto].
Qed.

Lemma hits_one (c : key) (l : list key) :
  distinct_keys l = true ->
  existsb (fun k => key_eqb k c) l = true ->
  list_sum (map (fun k => if key_eqb k c then 1%nat else 0%nat) l) = 1%nat.
Proof.
  induction l as [|x l IH]; simpl; try discriminate.
  intros Hd Hc. apply andb_prop in Hd. destruct Hd as [Hx Hl].
  destruct (key_eqb x c) eqn:E; simpl.
  - rewrite hits_none; auto.
    apply negb_true_iff in Hx.
    rewrite (existsb_key_congr x c l E) in Hx.
    rewrite <- Hx. clear. induction l as [|y l IH]; simpl; auto.
    now rewrite IH, (key_eqb_sym y c).
  - simpl in Hc. auto.
Qed.

Lemma list_sum_map_add {A : Type} (f g : A -> nat) (l : list A) :
  list_sum (map (fun x => (f x + g x)%nat) l)
  = (list_sum (map f l) + list_sum (map g l))%nat.
Proof.
  induction l as [|x l IH]; simpl; lia.
Qed.

(** The counts of a family of distinct labels that covers the column add
    up to the number of present cells. *)
Lemma count_key_total (cells : list (option key)) (l : list key) :
  distinct_keys l = true ->
  (forall k, In (Some k) cells -> existsb (fun u => key_eqb u k) l = true) ->
  list_sum (map (fun k => count_key k cells) l)
  = List.length (filter present cells).
Proof.
  intros Hd. induction cells as [|c rest IH]; intro Hcov.
  - unfold count_key. simpl. clear. induction l; simpl; auto.
  - assert (IH' : list_sum (map (fun k => count_key k rest) l)
                  = List.length (filter present rest)).
    { apply IH. intros k Hk. apply Hcov. now right. }
    transitivity
      (list_sum (map (fun k => ((if cell_is k c then 1 else 0)
                                + count_key k rest)%nat) l)).
    { f_equal. apply map_ext. intro k. unfold count_key. simpl.
      destruct (cell_is k c); reflexivity. }
    rewrite list_sum_map_add, IH'.
    destruct c as [c|]; simpl.
    + rewrite hits_one; auto. apply Hcov. now left.
    + clear. induction l; simpl; auto.
Qed.

(* ------------------------------------------------------------------ *)
(** ** value_counts                                                    *)
(* ------------------------------------------------------------------ *)

Lemma value_counts_keys (cells : list (option key)) :
  Permutation (map fst (value_counts cells)) (first_seen cells).
Proof.
  unfold value_counts.
  eapply perm_trans; [apply Permutation_map, isort_perm|].
  rewrite map_map. simpl. rewrite map_id, unique_first_seen. auto.
Qed.

Lemma value_counts_total (cells : list (option key)) :
  list_sum (map snd (value_counts cells)) = List.length (filter present cells).
Proof.
  unfold value_counts.
  rewrite (list_sum_perm _ _ (Permutation_map snd (isort_perm _ _))).
  rewrite map_map. simpl. rewrite unique_first_seen.
  apply count_key_total.
  - apply first_seen_distinct.
  - intros k Hk. apply first_seen_cover in Hk.
    rewrite <- Hk. clear.
    induction (first_seen cells) as [|x l IH]; simpl; auto.
    now rewrite IH, (key_eqb_sym x k).
Qed.

Lemma value_counts_normalize_keys (cells : list (option key)) :
  map fst (value_counts_normalize cells) = map fst (value_counts cells).
Proof.
  unfold value_counts_normalize. now rewrite map_map.
Qed.

Lemma value_counts_normalize_nil (cells : list (option key)) :
  value_counts_normalize cells = [] -> first_seen cells = [].
Proof.
  intro H. apply Permutation_nil.
  eapply perm_trans; [|apply value_counts_keys].
  rewrite <- value_counts_normalize_keys, H. auto.
Qed.

Lemma length_filter_present (cells : list (option key)) :
  existsb present cells = true ->
  (0 < List.length (filter present cells))%nat.
Proof.
  induction cells as [|c rest IH]; simpl; try discriminate.
  destruct (present c); simpl; auto. lia.
Qed.

(* ------------------------------------------------------------------ *)
(** ** Maximum and minimum that skip NaN                               *)
(* ------------------------------------------------------------------ *)

Lemma nanmax_none (l : list F) :
  nanmax l = None <-> dropna l = [].
Proof.
  induction l as [|[x|] l IH]; simpl; try tauto.
  destruct (nanmax l); split; discriminate.
Qed.

Lemma nanmin_none (l : list F) :
  nanmin l = None <-> dropna l = [].
Proof.
  induction l as [|[x|] l IH]; simpl; try tauto.
  destruct (nanmin l); split; discriminate.
Qed.

Lemma dropna_in (l : list F) (x : Q) : In x (dropna l) <-> In (Some x) l.
Proof.
  induction l as [|[y|] l IH]; simpl; try tauto.
  - rewrite IH. split; intros [H|H]; auto; left; congruence.
  - rewrite IH. split; auto. intros [H|H]; [discriminate|auto].
Qed.

Lemma nanmax_in (l : list F) (m : Q) :
  nanmax l = Some m -> In (Some m) l.
Proof.
  revert m. induction l as [|[x|] l IH]; simpl; intros m H.
  - discriminate.
  - destruct (nanmax l) as [m'|].
    + injection H as <-.
      unfold Qmax, GenericMinMax.gmax.
      destruct (x ?= m'); auto.
    + injection H as <-. auto.
  - auto.
Qed.

Lemma nanmin_in (l : list F) (m : Q) :
  nanmin l = Some m -> In (Some m) l.
Proof.
  revert m. induction l as [|[x|] l IH]; simpl; intros m H.
  - discriminate.
  - destruct (nanmin l) as [m'|].
    + injection H as <-.
      unfold Qmin, GenericMinMax.gmin.
      destruct (x ?= m'); auto.
    + injection H as <-. auto.
  - auto.
Qed.

Lemma nanmax_upper (l : list F) (m x : Q) :
  nanmax l = Some m -> In (Some x) l -> x <= m.
Proof.
  revert m. induction l as [|[y|] l IH]; simpl; intros m H Hx.
  - tauto.
  - destruct (nanmax l) as [m'|] eqn:E.
    + injection H as <-. destruct Hx as [[= ->]|Hx].
      * apply Q.le_max_l.
      * eapply Qle_trans; [apply (IH m' eq_refl Hx) | apply Q.le_max_r].
    + injection H as <-. destruct Hx as [[= ->]|Hx].
      * apply Qle_refl.
      * apply nanmax_none in E. apply dropna_in in Hx.
        rewrite E in Hx. destruct Hx.
  - destruct Hx as [Hx|Hx]; [discriminate | auto].
Qed.


(** Both extrema exist as soon as one entry is a number, and neither does
    otherwise. *)
Lemma nan_extrema (l : list F) :
  (exists lo hi, nanmin l = Some lo /\ nanmax l = Some hi /\ lo <= hi)
  \/ (nanmin l = None /\ nanmax l = None /\ forall x, ~ In (Some x) l).
Proof.
  destruct (nanmax l) as [hi|] eqn:Emax.
  - left. destruct (nanmin l) as [lo|] eqn:Emin.
    + exists lo, hi. repeat split; auto.
      eapply nanmax_upper; eauto. now apply nanmin_in.
    + apply nanmin_none in Emin. apply nanmax_in, dropna_in in Emax.
      rewrite Emin in Emax. destruct Emax.
  - right. apply nanmax_none in Emax. repeat split; auto.
    + now apply nanmin_none.
    + intros x Hx. apply dropna_in in Hx. rewrite Emax in Hx. destruct Hx.
Qed.

(* ------------------------------------------------------------------ *)
(** ** Reading and writing columns                                     *)
(* ------------------------------------------------------------------ *)

Lemma lookup_assign_same (name : string) (c : column)
      (cols : list (string * column)) :
  lookup_column name (assign_column name c cols) = Some c.
Proof.
  induction cols as [|[n c0] rest IH]; simpl.
  - now rewrite String.eqb_refl.
  - destruct (String.eqb n name) eqn:E; simpl; now rewrite E.
Qed.

Lemma lookup_assign_other (name other : string) (c : column)
      (cols : list (string * column)) :
  other <> name ->
  lookup_column other (assign_column name c cols) = lookup_column other cols.
Proof.
  intro Hne. induction cols as [|[n c0] rest IH]; simpl.
  - destruct (String.eqb name other) eqn:E; auto.
    apply String.eqb_eq in E. congruence.
  - destruct (String.eqb n name) eqn:E; simpl.
    + apply String.eqb_eq in E. subst n.
      destruct (String.eqb name other) eqn:E'; auto.
      apply String.eqb_eq in E'. congruence.
    + now rewrite IH.
Qed.

Lemma assign_column_names (name : string) (c : column)
      (cols : list (string * column)) :
  lookup_column name cols <> None ->
  map fst (assign_column name c cols) = map fst cols.
Proof.
  induction cols as [|[n c0] rest IH]; simpl.
  - congruence.
  - destruct (String.eqb n name); simpl; auto.
    intro H. now rewrite IH.
Qed.

(* ------------------------------------------------------------------ *)
(** ** The run of the analysis                                         *)
(* ------------------------------------------------------------------ *)

(** Lines 32-36 by cases on the target column. *)
Lemma ensure_numeric_target_run (target : string) (df : DataFrame) :
  ensure_numeric_target target df
  = match lookup_column target (frame_columns df) with
    | None => (inl (KeyError target), df)
    | Some (NumCol _) => (inr false, df)
    | Some (ObjCol _) => (inr true, coerce_target target df)
    end.
Proof.
  unfold ensure_numeric_target, coerce_target, bind, getitem.
  destruct (lookup_column target (frame_columns df)) as [[v|cells]|] eqn:E;
    simpl; auto.
  now rewrite E.
Qed.

Lemma ensure_numeric_target_state (target : string) (df : DataFrame) :
  snd (ensure_numeric_target target df) = coerce_target target df.
Proof.
  rewrite ensure_numeric_target_run. unfold coerce_target.
  destruct (lookup_column target (frame_columns df)) as [[v|cells]|];
    reflexivity.
Qed.

(** After line 36 the analysis only reads the table. *)
Lemma bias_analysis_state (sensitive target : string) (df : DataFrame) :
  snd (bias_analysis sensitive target df) = coerce_target target df.
Proof.
  rewrite <- ensure_numeric_target_state.
  unfold bias_analysis, bind at 1.
  destruct (ensure_numeric_target target df) as [[e|enc] df1]; simpl; auto.
  unfold bind, len, len_columns, getitem, idxmax, groupby_mean, bind, getitem,
    ret, raise.
  repeat match goal with
         | |- context [lookup_column ?n (frame_columns ?d)] =>
             destruct (lookup_column n (frame_columns d)); simpl
         | |- context [argmax ?x] => destruct (argmax x); simpl
         | |- context [match ?c with NumCol _ => _ | ObjCol _ => _ end] =>
             destruct c; simpl
         end; reflexivity.
Qed.

Lemma argmax_some (s : list (key * Q)) :
  s <> [] -> exists g, argmax s = Some g /\ In g s.
Proof.
  induction s as [|p rest IH]; [congruence|]. intros _. simpl.
  destruct rest as [|q rest'].
  - exists p. simpl. auto.
  - destruct IH as (b & Hb & Hin); [discriminate|].
    remember (q :: rest') as rest.
    rewrite Hb. destruct (Qle_bool (snd b) (snd p)).
    + exists p. simpl; auto.
    + exists b. auto.
Qed.

(** The rest of the analysis once the target is numeric in the table. *)
Lemma bias_analysis_after (sensitive target : string) (df df1 : DataFrame)
      (enc : bool) (scol : column) (vs : list (option Q)) (g : key * Q) :
  ensure_numeric_target target df = (inr enc, df1) ->
  lookup_column sensitive (frame_columns df1) = Some scol ->
  lookup_column target (frame_columns df1) = Some (NumCol vs) ->
  argmax (value_counts_normalize (column_keys scol)) = Some g ->
  bias_analysis sensitive target df
  = (inr (make_report enc (index_len df1) (List.length (frame_columns df1))
                      (value_counts_normalize (column_keys scol)) (fst g)
                      (group_means (column_keys scol) vs)),
     df1).
Proof.
  intros He Hs Ht Hg.
  unfold bias_analysis, bind at 1. rewrite He.
  unfold bind, len, len_columns, getitem, idxmax, groupby_mean, bind, getitem,
    ret, raise.
  rewrite Hs. simpl. rewrite Hg. simpl. rewrite Hs, Ht. reflexivity.
Qed.

(** On a valid input the analysis returns the report in closed form. *)
Lemma bias_analysis_valid (df : DataFrame) (sensitive target : string) :
  valid_input df sensitive target = true ->
  exists enc scol vs g,
    ensure_numeric_target target df = (inr enc, coerce_target target df)
    /\ lookup_column sensitive (frame_columns df) = Some scol
    /\ has_value scol = true
    /\ lookup_column sensitive (frame_columns (coerce_target target df))
       = Some scol
    /\ lookup_column target (frame_columns (coerce_target target df))
       = Some (NumCol vs)
    /\ argmax (value_counts_normalize (column_keys scol)) = Some g
    /\ bias_analysis sensitive target df
       = (inr (make_report enc (index_len (coerce_target target df))
                 (List.length (frame_columns (coerce_target target df)))
                 (value_counts_normalize (column_keys scol)) (fst g)
                 (group_means (column_keys scol) vs)),
          coerce_target target df).
Proof.
  unfold valid_input, has_column, column_has_value.
  intro H. apply andb_prop in H. destruct H as [H Hv].
  apply andb_prop in H. destruct H as [Hne Ht].
  apply negb_true_iff, String.eqb_neq in Hne.
  destruct (lookup_column sensitive (frame_columns df)) as [scol|] eqn:Es;
    [|discriminate].
  destruct (lookup_column target (frame_columns df)) as [tcol|] eqn:Et;
    [|discriminate].
  destruct (argmax_some (value_counts_normalize (column_keys scol)))
    as (g & Hg & _).
  { intro E. apply value_counts_normalize_nil in E.
    now apply (first_seen_nonempty _ Hv). }
  assert (Hrun := ensure_numeric_target_run target df).
  rewrite Et in Hrun.
  destruct tcol as [v|cells].
  - assert (Hc : coerce_target target df = df)
      by (unfold coerce_target; now rewrite Et).
    rewrite Hc in *.
    exists false, scol, v, g. repeat split; auto.
    now apply bias_analysis_after.
  - assert (Hc : coerce_target target df
                 = with_column target
                     (codes_column (fst (factorize (ObjCol cells)))) df)
      by (unfold coerce_target; now rewrite Et).
    assert (Hs1 : lookup_column sensitive
                    (frame_columns (coerce_target target df)) = Some scol).
    { rewrite Hc. simpl. now rewrite lookup_assign_other. }
    assert (Ht1 : lookup_column target
                    (frame_columns (coerce_target target df))
                  = Some (codes_column (fst (factorize (ObjCol cells))))).
    { rewrite Hc. simpl. apply lookup_assign_same. }
    unfold codes_column in Ht1.
    exists true, scol,
      (map (fun z => Some (inject_Z z)) (fst (factorize (ObjCol cells)))), g.
    repeat split; auto.
    now apply bias_analysis_after.
Qed.

(* ------------------------------------------------------------------ *)
(** ** Comparisons of floats                                           *)
(* ------------------------------------------------------------------ *)

Lemma gt_true (x y : Q) : gt (Some x) (Some y) = true <-> y < x.
Proof.
  unfold gt, Qlt_bool. rewrite negb_true_iff.
  split.
  - intro H. apply Qnot_le_lt. intro Hle.
    apply Qle_bool_iff in Hle. congruence.
  - intro H. destruct (Qle_bool x y) eqn:E; auto.
    apply Qle_bool_iff in E. exfalso. apply (Qlt_not_le _ _ H E).
Qed.

Lemma gt_false (x y : Q) : gt (Some x) (Some y) = false <-> x <= y.
Proof.
  unfold gt, Qlt_bool. rewrite negb_false_iff. apply Qle_bool_iff.
Qed.

Lemma div_pos (x y : Q) : 0 < y -> div (Some x) (Some y) = Some (x / y).
Proof.
  intro H. unfold div.
  destruct (Qeq_bool y 0) eqn:E; auto.
  apply Qeq_bool_iff in E. rewrite E in H. exfalso. apply (Qlt_irrefl _ H).
Qed.

(* ------------------------------------------------------------------ *)
(** ** The properties of the analysis                                  *)
(* ------------------------------------------------------------------ *)

(** C6: for every valid dataset the analysis returns a report whose risk
    level is a function of the number of flags set among the representation,
    label and fairness flags alone: none gives LOW, exactly one gives
    MODERATE, two or three give HIGH. *)
Theorem C6_risk_level_counts_flags (df : DataFrame) (sensitive target : string) :
  valid_input df sensitive target = true ->
  exists r df',
    bias_analysis sensitive target df = (inr r, df')
    /\ risk_level r = risk_of_count (true_flags r).
Proof.
  intro Hv.
  destruct (bias_analysis_valid df sensitive target Hv)
    as (enc & scol & vs & g & _ & _ & _ & _ & _ & _ & Hrun).
  rewrite Hrun. eexists. eexists. split; [reflexivity|].
  unfold risk_level, true_flags, make_report. simpl.
  destruct (gt (series_max _) (Some (7 # 10)));
    destruct (gt (sub _ _) (Some (2 # 10)));
    destruct (gt (sub _ _) (Some (1 # 10)) || _); reflexivity.
Qed.

Lemma C6_risk_level_counts_flags_witness :
  exists r df',
    bias_analysis "group" "hired" Samples.scenario_a = (inr r, df')
    /\ risk_level r = risk_of_count (true_flags r).
Proof.
  apply (C6_risk_level_counts_flags Samples.scenario_a "group" "hired").
  reflexivity.
Defined.






(** X20: the table of proportions of a report has exactly one entry per
    distinct value of the sensitive column: as many entries as distinct
    values, no label twice, every label taken from the column and every
    value of the column under its label (missing cells have no entry). *)
Theorem X20_one_proportion_per_value
        (df : DataFrame) (sensitive target : string) :
  valid_input df sensitive target = true ->
  exists r df' scol,
    bias_analysis sensitive target df = (inr r, df')
    /\ lookup_column sensitive (frame_columns df) = Some scol
    /\ List.length (rep r) = n_distinct sensitive df
    /\ distinct_keys (map fst (rep r)) = true
    /\ (forall k, In k (map fst (rep r)) -> In (Some k) (column_keys scol))
    /\ (forall k, In (Some k) (column_keys scol) ->
                  existsb (key_eqb k) (map fst (rep r)) = true).
Proof.
  intro Hv.
  destruct (bias_analysis_valid df sensitive target Hv)
    as (enc & scol & vs & g & _ & Hs & Hval & _ & _ & _ & Hrun).
  rewrite Hrun. exists (make_report enc
                 (index_len (coerce_target target df))
                 (List.length (frame_columns (coerce_target target df)))
                 (value_counts_normalize (column_keys scol)) (fst g)
                 (group_means (column_keys scol) vs)),
    (coerce_target target df), scol.
  split; [reflexivity|]. split; [exact Hs|].
  unfold make_report. cbn [rep].
  assert (Hperm : Permutation
                    (map fst (value_counts_normalize (column_keys scol)))
                    (first_seen (column_keys scol))).
  { rewrite value_counts_normalize_keys. apply value_counts_keys. }
  repeat split.
  - unfold n_distinct. rewrite Hs.
    rewrite <- (Permutation_length Hperm). now rewrite length_map.
  - rewrite (distinct_keys_perm _ _ Hperm). apply first_seen_distinct.
  - intros k Hk. apply first_seen_in.
    eapply Permutation_in; eauto.
  - intros k Hk. rewrite (existsb_perm _ _ _ Hperm).
    now apply first_seen_cover.
Qed.

Lemma X20_one_proportion_per_value_witness :
  exists r df' scol,
    bias_analysis "group" "hired" Samples.scenario_a = (inr r, df')
    /\ lookup_column "group" (frame_columns Samples.scenario_a) = Some scol
    /\ List.length (rep r) = n_distinct "group" Samples.scenario_a
    /\ distinct_keys (map fst (rep r)) = true
    /\ (forall k, In k (map fst (rep r)) -> In (Some k) (column_keys scol))
    /\ (forall k, In (Some k) (column_keys scol) ->
                  existsb (key_eqb k) (map fst (rep r)) = true).
Proof.
  apply (X20_one_proportion_per_value Samples.scenario_a "group" "hired").
  reflexivity.
Defined.

(* ------------------------------------------------------------------ *)
(** ** A single group                                                  *)
(* ------------------------------------------------------------------ *)







(* ------------------------------------------------------------------ *)
(** ** The target column and the caller's table                        *)
(* ------------------------------------------------------------------ *)

Lemma bias_analysis_encoded (sensitive target : string) (df : DataFrame)
      (r : Report) :
  fst (bias_analysis sensitive target df) = inr r ->
  fst (ensure_numeric_target target df) = inr (target_encoded r).
Proof.
  unfold bias_analysis, bind at 1.
  destruct (ensure_numeric_target target df) as [[e|enc] df1]; simpl;
    [discriminate|].
  unfold bind, len, len_columns, getitem, idxmax, groupby_mean, bind, getitem,
    ret, raise.
  repeat match goal with
         | |- context [lookup_column ?n (frame_columns ?d)] =>
             destruct (lookup_column n (frame_columns d)); simpl
         | |- context [argmax ?x] => destruct (argmax x); simpl
         | |- context [match ?c with NumCol _ => _ | ObjCol _ => _ end] =>
             destruct c; simpl
         end; try discriminate.
  now intros [= <-].
Qed.

Lemma key_eqb_text (k : key) (v : string) :
  key_eqb k (KStr v) = true -> k = KStr v.
Proof.
  destruct k; simpl; [discriminate|].
  intro H. apply String.eqb_eq in H. now subst.
Qed.

(** The codes of a text column, cell by cell. *)
Lemma factorize_text (cells : list (option string)) :
  let codes := fst (factorize (ObjCol cells)) in
  List.length codes = List.length cells
  /\ forall i cell,
       nth_error cells i = Some cell ->
       match cell with
       | None => nth_error codes i = Some (-1)%Z
       | Some v =>
           exists j,
             nth_error codes i = Some (Z.of_nat j)
             /\ nth_error (first_seen (column_keys (ObjCol cells))) j
                = Some (KStr v)
       end.
Proof.
  unfold factorize. simpl. split.
  - now rewrite factorize_from_length, length_map.
  - intros i cell Hi.
    pose proof (factorize_from_codes (map (option_map KStr) cells) [] i
                  (option_map KStr cell)) as H.
    rewrite nth_error_map, Hi in H. specialize (H eq_refl).
    destruct cell as [v|]; simpl in H; auto.
    destruct H as (j & k' & Hc & Hu & Hk).
    apply key_eqb_text in Hk. subst k'.
    exists j. split; auto.
    rewrite <- unique_first_seen. exact Hu.
Qed.

(** C8: for every dataset whose target column is not numeric, every report
    of the analysis has target_encoded = true and the target column of the
    table holds integer codes in place of the values: the code of a value
    is its position among the distinct values in first-seen order (0 for
    the first, 1 for the next new one, ...), a missing cell having the code
    -1.  For every dataset whose target column is numeric the table is left
    as it is and every report has target_encoded = false.  On a valid input
    there is a report. *)
Theorem C8_target_normalization
        (df : DataFrame) (sensitive target : string) (tcol : column) :
  lookup_column target (frame_columns df) = Some tcol ->
  (valid_input df sensitive target = true ->
   exists r, fst (bias_analysis sensitive target df) = inr r)
  /\ (forall r, fst (bias_analysis sensitive target df) = inr r ->
                target_encoded r = negb (is_numeric_dtype tcol))
  /\ match tcol with
     | NumCol _ => snd (bias_analysis sensitive target df) = df
     | ObjCol cells =>
         exists codes,
           lookup_column target
             (frame_columns (snd (bias_analysis sensitive target df)))
           = Some (codes_column codes)
           /\ List.length codes = List.length cells
           /\ forall i cell,
                nth_error cells i = Some cell ->
                match cell with
                | None => nth_error codes i = Some (-1)%Z
                | Some v =>
                    exists j,
                      nth_error codes i = Some (Z.of_nat j)
                      /\ nth_error (first_seen (column_keys tcol)) j
                         = Some (KStr v)
                end
     end.
Proof.
  intro Ht. split; [|split].
  - intro Hv.
    destruct (bias_analysis_valid df sensitive target Hv)
      as (enc & scol & vs & g & _ & _ & _ & _ & _ & _ & Hrun).
    rewrite Hrun. eexists. reflexivity.
  - intros r Hr. apply bias_analysis_encoded in Hr.
    rewrite ensure_numeric_target_run, Ht in Hr.
    destruct tcol; simpl in *; congruence.
  - rewrite bias_analysis_state. unfold coerce_target. rewrite Ht.
    destruct tcol as [v|cells]; auto.
    exists (fst (factorize (ObjCol cells))). split.
    + simpl. apply lookup_assign_same.
    + apply factorize_text.
Qed.

Lemma C8_target_normalization_witness :
  (valid_input Samples.scenario_c "group" "label" = true ->
   exists r, fst (bias_analysis "group" "label" Samples.scenario_c) = inr r)
  /\ (forall r, fst (bias_analysis "group" "label" Samples.scenario_c) = inr r ->
                target_encoded r = true)
  /\ exists codes,
       lookup_column "label"
         (frame_columns (snd (bias_analysis "group" "label" Samples.scenario_c)))
       = Some (codes_column codes)
       /\ List.length codes = 4%nat
       /\ forall i cell,
            nth_error [Some "yes"; Some "no"; Some "no"; Some "yes"] i
            = Some cell ->
            match cell with
            | None => nth_error codes i = Some (-1)%Z
            | Some v =>
                exists j,
                  nth_error codes i = Some (Z.of_nat j)
                  /\ nth_error [KStr "yes"; KStr "no"] j = Some (KStr v)
            end.
Proof.
  exact (C8_target_normalization Samples.scenario_c "group" "label"
           (Samples.txt ["yes"; "no"; "no"; "yes"]) eq_refl).
Defined.

(** C2 as the code has it: after the analysis the caller's table has the
    rows and the column names it had, every column other than the target
    holds the values it held, and so does the target when it is numeric (or
    absent); a target that is not numeric has been replaced, in the caller's
    table, by the column of its codes. *)
Theorem C2_caller_table_after (df : DataFrame) (sensitive target : string) :
  let df' := snd (bias_analysis sensitive target df) in
  index_len df' = index_len df
  /\ map fst (frame_columns df') = map fst (frame_columns df)
  /\ (forall c, c <> target ->
                lookup_column c (frame_columns df')
                = lookup_column c (frame_columns df))
  /\ match lookup_column target (frame_columns df) with
     | Some (ObjCol cells) =>
         lookup_column target (frame_columns df')
         = Some (codes_column (fst (factorize (ObjCol cells))))
     | _ => df' = df
     end.
Proof.
  cbv zeta. rewrite bias_analysis_state. unfold coerce_target.
  destruct (lookup_column target (frame_columns df)) as [[v|cells]|] eqn:Et;
    auto.
  simpl. repeat split.
  - apply assign_column_names. congruence.
  - intros c Hc. now apply lookup_assign_other.
  - apply lookup_assign_same.
Qed.

Lemma C2_caller_table_after_witness :
  let df' := snd (bias_analysis "group" "label" Samples.scenario_c) in
  index_len df' = index_len Samples.scenario_c
  /\ map fst (frame_columns df') = map fst (frame_columns Samples.scenario_c)
  /\ (forall c, c <> "label" ->
                lookup_column c (frame_columns df')
                = lookup_column c (frame_columns Samples.scenario_c))
  /\ lookup_column "label" (frame_columns df')
     = Some (codes_column
               (fst (factorize
                       (ObjCol [Some "yes"; Some "no"; Some "no"; Some "yes"])))).
Proof.
  exact (C2_caller_table_after Samples.scenario_c "group" "label").
Defined.

(** C2 as stated fails: after the analysis of [scenario_c] the target
    column "label" of the caller's table holds the codes 0, 1, 1, 0 and no
    longer the text it held. *)
Lemma C2_counterexample :
  lookup_column "label" (frame_columns Samples.scenario_c)
  = Some (ObjCol [Some "yes"; Some "no"; Some "no"; Some "yes"])
  /\ lookup_column "label"
       (frame_columns (snd (bias_analysis "group" "label" Samples.scenario_c)))
     = Some (NumCol [Some 0; Some 1; Some 1; Some 0])
  /\ snd (bias_analysis "group" "label" Samples.scenario_c)
     <> Samples.scenario_c.
Proof.
  split; [reflexivity|]. split; [reflexivity|].
  vm_compute. discriminate.
Qed.

(** C4 as the code has it: when the analysis fails no report is returned;
    the caller's table is as it was when the target column is absent (the
    failure is then the KeyError of the target) or numeric, and when the
    target is not numeric the table has already had its target column
    replaced by the codes by the time the failure surfaces. *)
Theorem C4_failure_effect
        (df : DataFrame) (sensitive target : string) (e : exn) :
  fst (bias_analysis sensitive target df) = inl e ->
  (forall r, fst (bias_analysis sensitive target df) <> inr r)
  /\ match lookup_column target (frame_columns df) with
     | None =>
         e = KeyError target
         /\ snd (bias_analysis sensitive target df) = df
     | Some (NumCol _) => snd (bias_analysis sensitive target df) = df
     | Some (ObjCol cells) =>
         snd (bias_analysis sensitive target df)
         = with_column target
             (codes_column (fst (factorize (ObjCol cells)))) df
     end.
Proof.
  intro He. split; [congruence|].
  rewrite bias_analysis_state. unfold coerce_target.
  destruct (lookup_column target (frame_columns df)) as [[v|cells]|] eqn:Et;
    auto.
  split; auto.
  revert He. unfold bias_analysis, bind at 1.
  rewrite ensure_numeric_target_run, Et. simpl. congruence.
Qed.

Lemma C4_failure_effect_witness :
  (forall r, fst (bias_analysis "group" "label" Samples.no_sensitive) <> inr r)
  /\ snd (bias_analysis "group" "label" Samples.no_sensitive)
     = with_column "label"
         (codes_column
            (fst (factorize (ObjCol [Some "yes"; Some "no"]))))
         Samples.no_sensitive.
Proof.
  exact (C4_failure_effect Samples.no_sensitive "group" "label"
           (KeyError "group") eq_refl).
Defined.

(** C4 as stated fails: on [no_sensitive] the analysis fails with the
    KeyError of the sensitive column, and the target column of the caller's
    table has by then been replaced by the codes 0, 1. *)
Lemma C4_counterexample :
  fst (bias_analysis "group" "label" Samples.no_sensitive)
  = inl (KeyError "group")
  /\ frame_columns Samples.no_sensitive
     = [("label", ObjCol [Some "yes"; Some "no"])]
  /\ frame_columns (snd (bias_analysis "group" "label" Samples.no_sensitive))
     = [("label", NumCol [Some 0; Some 1])]
  /\ snd (bias_analysis "group" "label" Samples.no_sensitive)
     <> Samples.no_sensitive.
Proof.
  split; [reflexivity|]. split; [reflexivity|]. split; [reflexivity|].
  vm_compute. discriminate.
Qed.

(* ------------------------------------------------------------------ *)
(** ** Failing inputs                                                  *)
(* ------------------------------------------------------------------ *)

Lemma lookup_column_in (name : string) (cols : list (string * column))
      (c : column) :
  lookup_column name cols = Some c -> exists n, In (n, c) cols.
Proof.
  induction cols as [|[n c0] rest IH]; simpl; [discriminate|].
  destruct (String.eqb n name).
  - intros [= ->]. exists n. auto.
  - intro H. destruct (IH H) as (n' & Hn). exists n'. auto.
Qed.

(** A column of a table without rows has no cell. *)
Lemma no_rows_no_keys (df : DataFrame) (name : string) (c : column) :
  wf_frame df = true ->
  index_len df = 0%nat ->
  lookup_column name (frame_columns df) = Some c ->
  column_keys c = [].
Proof.
  intros Hwf Hlen Hc. unfold wf_frame in Hwf.
  destruct (lookup_column_in _ _ _ Hc) as (n & Hin).
  rewrite forallb_forall in Hwf. specialize (Hwf _ Hin). simpl in Hwf.
  apply Nat.eqb_eq in Hwf. rewrite Hlen in Hwf.
  destruct c as [[|x l]|[|x l]]; simpl in *; auto; discriminate.
Qed.

Lemma value_counts_normalize_empty (ks : list (option key)) :
  first_seen ks = [] -> value_counts_normalize ks = [].
Proof.
  intro H. unfold value_counts_normalize, value_counts.
  now rewrite unique_first_seen, H.
Qed.

Lemma bias_analysis_no_sensitive (sensitive target : string)
      (df df1 : DataFrame) (enc : bool) :
  ensure_numeric_target target df = (inr enc, df1) ->
  lookup_column sensitive (frame_columns df1) = None ->
  bias_analysis sensitive target df = (inl (KeyError sensitive), df1).
Proof.
  intros He Hs. unfold bias_analysis, bind at 1. rewrite He.
  unfold bind, len, len_columns, getitem. now rewrite Hs.
Qed.

Lemma bias_analysis_no_value (sensitive target : string)
      (df df1 : DataFrame) (enc : bool) (scol : column) :
  ensure_numeric_target target df = (inr enc, df1) ->
  lookup_column sensitive (frame_columns df1) = Some scol ->
  first_seen (column_keys scol) = [] ->
  bias_analysis sensitive target df = (inl ValueError, df1).
Proof.
  intros He Hs Hk. unfold bias_analysis, bind at 1. rewrite He.
  unfold bind, len, len_columns, getitem, idxmax. rewrite Hs. simpl.
  now rewrite (value_counts_normalize_empty _ Hk).
Qed.

(** C1 as the code has it: for every dataset without rows, or without the
    sensitive or the target column, or whose sensitive column has no
    distinct value, the analysis (called with two different column names)
    raises an exception and returns no report: the KeyError of the target
    column if that is absent, else the KeyError of the sensitive column if
    that is absent, else a ValueError. *)
Theorem C1_invalid_input_raises
        (df : DataFrame) (sensitive target : string) :
  wf_frame df = true ->
  sensitive <> target ->
  index_len df = 0%nat
  \/ has_column sensitive df = false
  \/ has_column target df = false
  \/ n_distinct sensitive df = 0%nat ->
  fst (bias_analysis sensitive target df)
  = inl (input_error df sensitive target)
  /\ (forall r, fst (bias_analysis sensitive target df) <> inr r)
  /\ (exn_class (input_error df sensitive target) = "KeyError"
      \/ exn_class (input_error df sensitive target) = "ValueError").
Proof.
  intros Hwf Hne Hbad.
  assert (Hfst : fst (bias_analysis sensitive target df)
                 = inl (input_error df sensitive target)).
  { unfold input_error, has_column in *.
    pose proof (ensure_numeric_target_run target df) as Hrun.
    destruct (lookup_column target (frame_columns df)) as [tcol|] eqn:Et.
    - assert (Hs1 : lookup_column sensitive
                      (frame_columns (coerce_target target df))
                    = lookup_column sensitive (frame_columns df)).
      { unfold coerce_target. rewrite Et.
        destruct tcol; auto. simpl. now apply lookup_assign_other. }
      assert (He : exists enc,
                 ensure_numeric_target target df
                 = (inr enc, coerce_target target df)).
      { destruct tcol; rewrite Hrun; [exists false|exists true]; auto.
        unfold coerce_target. now rewrite Et. }
      destruct He as (enc & He).
      destruct (lookup_column sensitive (frame_columns df)) as [scol|] eqn:Es.
      + assert (Hk : first_seen (column_keys scol) = []).
        { destruct Hbad as [H|[H|[H|H]]]; try discriminate.
          - now rewrite (no_rows_no_keys df sensitive scol Hwf H Es).
          - unfold n_distinct in H. rewrite Es in H.
            now destruct (first_seen (column_keys scol)). }
        now rewrite (bias_analysis_no_value _ _ _ _ _ _ He Hs1 Hk).
      + now rewrite (bias_analysis_no_sensitive _ _ _ _ _ He Hs1).
    - unfold bias_analysis, bind at 1. now rewrite Hrun. }
  split; [exact Hfst|]. split; [congruence|].
  unfold input_error.
  destruct (has_column target df), (has_column sensitive df); simpl; auto.
Qed.

Lemma C1_invalid_input_raises_witness :
  fst (bias_analysis "group" "label" Samples.no_rows)
  = inl (input_error Samples.no_rows "group" "label")
  /\ (forall r, fst (bias_analysis "group" "label" Samples.no_rows) <> inr r)
  /\ (exn_class (input_error Samples.no_rows "group" "label") = "KeyError"
      \/ exn_class (input_error Samples.no_rows "group" "label")
         = "ValueError").
Proof.
  apply (C1_invalid_input_raises Samples.no_rows "group" "label").
  - reflexivity.
  - discriminate.
  - left. reflexivity.
Defined.

(** C1 as stated fails: on the table without columns the analysis raises a
    KeyError, and on the table without rows a ValueError; neither is an
    InvalidInputError. *)
Lemma C1_counterexample :
  (exists e,
     fst (bias_analysis "group" "label" Samples.no_columns) = inl e
     /\ exn_class e = "KeyError"
     /\ exn_class e <> "InvalidInputError")
  /\ (exists e,
        fst (bias_analysis "group" "label" Samples.no_rows) = inl e
        /\ exn_class e = "ValueError"
        /\ exn_class e <> "InvalidInputError").
Proof.
  split; eexists; (split; [reflexivity|]); split;
    [reflexivity | discriminate | reflexivity | discriminate].
Qed.

(* ------------------------------------------------------------------ *)
(** ** Running the analysis twice                                      *)
(* ------------------------------------------------------------------ *)

(** C3 as the code has it: for every valid dataset and column pair, two
    calls in sequence on the table the caller holds both return a report,
    the second call finds the table as the first left it and leaves it so,
    and the second report is the first one with target_encoded = false: the
    two reports are the same when the first has target_encoded = false (a
    numeric target), and differ in that entry alone otherwise. *)
Theorem C3_second_run (df : DataFrame) (sensitive target : string) :
  valid_input df sensitive target = true ->
  exists r1 df1,
    bias_analysis sensitive target df = (inr r1, df1)
    /\ bias_analysis sensitive target df1
       = (inr (with_target_encoded false r1), df1)
    /\ (target_encoded r1 = false ->
        bias_analysis sensitive target df1 = (inr r1, df1)).
Proof.
  intro Hv.
  destruct (bias_analysis_valid df sensitive target Hv)
    as (enc & scol & vs & g & _ & _ & _ & Hs1 & Ht1 & Hg & Hrun).
  set (df1 := coerce_target target df) in *.
  assert (He : ensure_numeric_target target df1 = (inr false, df1))
    by (now rewrite ensure_numeric_target_run, Ht1).
  pose proof (bias_analysis_after sensitive target df1 df1 false scol vs g
                He Hs1 Ht1 Hg) as Hrun2.
  rewrite Hrun. eexists. eexists. split; [reflexivity|].
  split.
  - exact Hrun2.
  - unfold make_report. simpl. intros ->. exact Hrun2.
Qed.

Lemma C3_second_run_witness :
  exists r1 df1,
    bias_analysis "group" "label" Samples.scenario_c = (inr r1, df1)
    /\ bias_analysis "group" "label" df1
       = (inr (with_target_encoded false r1), df1)
    /\ (target_encoded r1 = false ->
        bias_analysis "group" "label" df1 = (inr r1, df1)).
Proof.
  apply (C3_second_run Samples.scenario_c "group" "label").
  reflexivity.
Defined.

(** C3 as stated fails: the first report on [scenario_c] has
    target_encoded = true, the second, on the table the first call left,
    has target_encoded = false. *)
Lemma C3_counterexample :
  exists r1 r2,
    fst (bias_analysis "group" "label" Samples.scenario_c) = inr r1
    /\ fst (bias_analysis "group" "label"
              (snd (bias_analysis "group" "label" Samples.scenario_c)))
       = inr r2
    /\ target_encoded r1 = true
    /\ target_encoded r2 = false
    /\ r1 <> r2.
Proof.
  do 2 eexists. split; [reflexivity|]. split; [reflexivity|].
  split; [reflexivity|]. split; [reflexivity|].
  intro H. apply (f_equal target_encoded) in H. discriminate.
Qed.

(* ------------------------------------------------------------------ *)
(** ** The shape of the table and of the report                        *)
(* ------------------------------------------------------------------ *)

Lemma coerce_target_shape (target : string) (df : DataFrame) :
  index_len (coerce_target target df) = index_len df
  /\ map fst (frame_columns (coerce_target target df))
     = map fst (frame_columns df).
Proof.
  unfold coerce_target.
  destruct (lookup_column target (frame_columns df)) as [[v|cells]|] eqn:Et;
    auto.
  simpl. split; auto. apply assign_column_names. congruence.
Qed.

(** X1: the rows and columns entries of the report are the numbers of rows
    and of columns of the table as the caller passed it, and also the
    numbers the dashboard reads off the table after the call. *)
Theorem X1_rows_and_columns (df : DataFrame) (sensitive target : string) :
  valid_input df sensitive target = true ->
  exists r df',
    bias_analysis sensitive target df = (inr r, df')
    /\ rows r = index_len df
    /\ columns r = List.length (frame_columns df)
    /\ index_len df' = rows r
    /\ List.length (frame_columns df') = columns r.
Proof.
  intro Hv.
  destruct (bias_analysis_valid df sensitive target Hv)
    as (enc & scol & vs & g & _ & _ & _ & _ & _ & _ & Hrun).
  rewrite Hrun. eexists. eexists. split; [reflexivity|].
  destruct (coerce_target_shape target df) as [Hlen Hnames].
  unfold make_report. cbn [rows columns].
  apply (f_equal (@List.length string)) in Hnames.
  rewrite !length_map in Hnames. auto.
Qed.

Lemma X1_rows_and_columns_witness :
  exists r df',
    bias_analysis "group" "label" Samples.scenario_c = (inr r, df')
    /\ rows r = 4%nat
    /\ columns r = 2%nat
    /\ index_len df' = rows r
    /\ List.length (frame_columns df') = columns r.
Proof.
  apply (X1_rows_and_columns Samples.scenario_c "group" "label").
  reflexivity.
Defined.

Lemma forallb_assign_column (P : column -> bool) (name : string)
      (c : column) (cols : list (string * column)) :
  forallb (fun nc => P (snd nc)) cols = true ->
  P c = true ->
  forallb (fun nc => P (snd nc)) (assign_column name c cols) = true.
Proof.
  intros Hcols Hc. induction cols as [|[n c0] rest IH]; simpl in *.
  - now rewrite Hc.
  - apply andb_prop in Hcols. destruct Hcols as [H0 Hrest].
    destruct (String.eqb n name); simpl.
    + now rewrite Hc, Hrest.
    + now rewrite H0, IH.
Qed.

Lemma wf_column_len (df : DataFrame) (name : string) (c : column) :
  wf_frame df = true ->
  lookup_column name (frame_columns df) = Some c ->
  column_len c = index_len df.
Proof.
  intros Hwf Hc. unfold wf_frame in Hwf.
  destruct (lookup_column_in _ _ _ Hc) as (n & Hin).
  rewrite forallb_forall in Hwf. specialize (Hwf _ Hin).
  now apply Nat.eqb_eq in Hwf.
Qed.

Lemma codes_column_len (cells : list (option string)) :
  column_len (codes_column (fst (factorize (ObjCol cells))))
  = List.length cells.
Proof.
  unfold codes_column, factorize. simpl.
  now rewrite length_map, factorize_from_length, length_map.
Qed.

(** X2: the analysis keeps the table well formed: if every column was as
    long as the index before the call, so is every column after it, the
    column of codes included. *)
Theorem X2_table_stays_well_formed
        (df : DataFrame) (sensitive target : string) :
  wf_frame df = true ->
  wf_frame (snd (bias_analysis sensitive target df)) = true.
Proof.
  intro Hwf. rewrite bias_analysis_state. unfold coerce_target.
  destruct (lookup_column target (frame_columns df)) as [[v|cells]|] eqn:Et;
    auto.
  unfold wf_frame, with_column. simpl.
  apply (forallb_assign_column
           (fun c => Nat.eqb (column_len c) (index_len df))).
  - exact Hwf.
  - apply Nat.eqb_eq. rewrite codes_column_len.
    apply (wf_column_len df target (ObjCol cells) Hwf Et).
Qed.

Lemma X2_table_stays_well_formed_witness :
  wf_frame (snd (bias_analysis "group" "label" Samples.scenario_c)) = true.
Proof.
  apply (X2_table_stays_well_formed Samples.scenario_c "group" "label").
  reflexivity.
Defined.

(* ------------------------------------------------------------------ *)
(** ** How the flags depend on one another                             *)
(* ------------------------------------------------------------------ *)

(** X3: the label flag never comes alone.  Both it and the fairness flag
    test the same difference of group means, against 0.2 and 0.1: a report
    with the label flag set has the fairness flag set as well, and its risk
    level is HIGH. *)
Theorem X3_label_flag_implies_high
        (df : DataFrame) (sensitive target : string) :
  valid_input df sensitive target = true ->
  exists r df',
    bias_analysis sensitive target df = (inr r, df')
    /\ (label_issue r = true ->
        fairness_issue r = true /\ risk_level r = HIGH).
Proof.
  intro Hv.
  destruct (bias_analysis_valid df sensitive target Hv)
    as (enc & scol & vs & g & _ & _ & _ & _ & _ & _ & Hrun).
  rewrite Hrun. eexists. eexists. split; [reflexivity|].
  unfold make_report, risk_level.
  cbn [label_issue fairness_issue traffic].
  set (ld := group_means (column_keys scol) vs).
  destruct (sub (series_max ld) (series_min ld)) as [z|] eqn:Ez;
    [|discriminate].
  intro Hl. rewrite Hl.
  apply gt_true in Hl.
  assert (Hf : gt (Some z) (Some (1 # 10)) = true).
  { apply gt_true. eapply Qlt_trans; [|exact Hl]. reflexivity. }
  rewrite Hf. simpl orb. split; auto.
  destruct (gt _ (Some (7 # 10))); reflexivity.
Qed.

Lemma X3_label_flag_implies_high_witness :
  exists r df',
    bias_analysis "group" "hired" Samples.scenario_a = (inr r, df')
    /\ (label_issue r = true ->
        fairness_issue r = true /\ risk_level r = HIGH).
Proof.
  apply (X3_label_flag_implies_high Samples.scenario_a "group" "hired").
  reflexivity.
Defined.

Lemma di_range (ld : list (key * F)) :
  exists d,
    (if gt (series_max ld) (Some 0)
     then div (series_min ld) (series_max ld) else Some 1) = Some d
    /\ d <= 1
    /\ (d < 0 <->
        exists lo hi, series_min ld = Some lo /\ series_max ld = Some hi
                      /\ lo < 0 /\ 0 < hi).
Proof.
  unfold series_max, series_min.
  destruct (nan_extrema (map snd ld))
    as [(lo & hi & Hlo & Hhi & Hle)|(Hlo & Hhi & Hno)]; rewrite Hlo, Hhi.
  - destruct (gt (Some hi) (Some 0)) eqn:G.
    + apply gt_true in G. rewrite (div_pos lo hi G).
      exists (lo / hi). split; [reflexivity|]. split.
      * apply Qle_shift_div_r; auto. lra.
      * split.
        -- intro Hneg. exists lo, hi. repeat split; auto.
           apply Qnot_le_lt. intro H0.
           apply (Qlt_not_le _ _ Hneg).
           apply Qle_shift_div_l; auto. lra.
        -- intros (lo' & hi' & E1 & E2 & Hl & _).
           injection E1 as E1. subst lo'.
           apply Qlt_shift_div_r; auto. lra.
    + apply gt_false in G.
      exists 1. split; [reflexivity|]. split; [discriminate|].
      split.
      * intro H. exfalso. revert H. apply Qle_not_lt. discriminate.
      * intros (lo' & hi' & _ & E2 & _ & Hh).
        injection E2 as E2. subst hi'.
        exfalso. apply (Qlt_not_le _ _ Hh G).
  - simpl. exists 1. split; [reflexivity|]. split; [discriminate|].
    split.
    + intro H. exfalso. revert H. apply Qle_not_lt. discriminate.
    + intros (lo' & hi' & H & _). discriminate.
Qed.

(** X4: whenever the disparate impact ratio of a report is a number, it is
    at most 1, and it is negative only if the least group mean is negative
    and the greatest positive. *)
Theorem X4_disparate_impact_range
        (df : DataFrame) (sensitive target : string) :
  valid_input df sensitive target = true ->
  exists r df',
    bias_analysis sensitive target df = (inr r, df')
    /\ forall d,
         di r = Some d ->
         d <= 1
         /\ (d < 0 ->
             exists lo hi, series_min (label_dist r) = Some lo
                           /\ series_max (label_dist r) = Some hi
                           /\ lo < 0 /\ 0 < hi).
Proof.
  intro Hv.
  destruct (bias_analysis_valid df sensitive target Hv)
    as (enc & scol & vs & g & _ & _ & _ & _ & _ & _ & Hrun).
  rewrite Hrun.
  destruct (di_range (group_means (column_keys scol) vs))
    as (d0 & Hd0 & Hle & Hneg).
  eexists. eexists. split; [reflexivity|].
  unfold make_report. cbn [di label_dist].
  intros d Hd. rewrite Hd0 in Hd. injection Hd as <-.
  split; [exact Hle | apply Hneg].
Qed.

Lemma X4_disparate_impact_range_witness :
  exists r df',
    bias_analysis "group" "hired" Samples.scenario_a = (inr r, df')
    /\ forall d,
         di r = Some d ->
         d <= 1
         /\ (d < 0 ->
             exists lo hi, series_min (label_dist r) = Some lo
                           /\ series_max (label_dist r) = Some hi
                           /\ lo < 0 /\ 0 < hi).
Proof.
  apply (X4_disparate_impact_range Samples.scenario_a "group" "hired").
  reflexivity.
Defined.

(* ------------------------------------------------------------------ *)
(** ** The call from the sidebar                                       *)
(* ------------------------------------------------------------------ *)

Lemma in_columns_lookup (name : string) (cols : list (string * column)) :
  In name (map fst cols) -> exists c, lookup_column name cols = Some c.
Proof.
  induction cols as [|[n c0] rest IH]; simpl; [tauto|].
  intros [->|H].
  - rewrite String.eqb_refl. eauto.
  - destruct (String.eqb n name); eauto.
Qed.

Lemma no_value_first_seen (ks : list (option key)) :
  existsb present ks = false -> first_seen ks = [].
Proof.
  induction ks as [|[k|] rest IH]; simpl; auto. discriminate.
Qed.

(** X5: when the sensitive column is one of [df.columns] and the target is
    one of the choices the sidebar offers (the columns other than the
    sensitive one), the call of the analysis cannot fail on a column name:
    it returns a report when the sensitive column has a value, and raises a
    ValueError when it has none (no row, or only missing cells). *)
Theorem X5_sidebar_call (df : DataFrame) (sensitive target : string) :
  In sensitive (df_columns df) ->
  In target (target_options df sensitive) ->
  match fst (bias_analysis sensitive target df) with
  | inr _ => column_has_value sensitive df = true
  | inl e => e = ValueError /\ column_has_value sensitive df = false
  end.
Proof.
  unfold target_options, df_columns. intros Hs Ht.
  apply filter_In in Ht. destruct Ht as [Ht Hne].
  apply negb_true_iff, String.eqb_neq in Hne.
  destruct (in_columns_lookup _ _ Hs) as (scol & Es).
  destruct (in_columns_lookup _ _ Ht) as (tcol & Et).
  destruct (column_has_value sensitive df) eqn:Hv.
  - assert (V : valid_input df sensitive target = true).
    { unfold valid_input, has_column. rewrite Et, Hv.
      destruct (String.eqb sensitive target) eqn:E; auto.
      apply String.eqb_eq in E. congruence. }
    destruct (bias_analysis_valid df sensitive target V)
      as (enc & scol' & vs & g & _ & _ & _ & _ & _ & _ & Hrun).
    now rewrite Hrun.
  - unfold column_has_value in Hv. rewrite Es in Hv.
    pose proof (ensure_numeric_target_run target df) as Hrun.
    rewrite Et in Hrun.
    assert (Hs1 : lookup_column sensitive
                    (frame_columns (coerce_target target df)) = Some scol).
    { unfold coerce_target. rewrite Et. destruct tcol; auto.
      simpl. rewrite lookup_assign_other; auto. }
    assert (He : exists enc,
               ensure_numeric_target target df
               = (inr enc, coerce_target target df)).
    { destruct tcol; rewrite Hrun; [exists false|exists true]; auto.
      unfold coerce_target. now rewrite Et. }
    destruct He as (enc & He).
    rewrite (bias_analysis_no_value _ _ _ _ _ _ He Hs1
               (no_value_first_seen _ Hv)).
    simpl. auto.
Qed.

Lemma X5_sidebar_call_witness :
  match fst (bias_analysis "group" "label" Samples.no_rows) with
  | inr _ => column_has_value "group" Samples.no_rows = true
  | inl e => e = ValueError /\ column_has_value "group" Samples.no_rows = false
  end.
Proof.
  apply (X5_sidebar_call Samples.no_rows "group" "label").
  - simpl. auto.
  - simpl. auto.
Defined.

(* ------------------------------------------------------------------ *)
(** ** The codes of factorize                                          *)
(* ------------------------------------------------------------------ *)

Lemma distinct_keys_nth (l : list key) :
  distinct_keys l = true ->
  forall i j k k',
    nth_error l i = Some k -> nth_error l j = Some k' ->
    key_eqb k k' = true -> i = j.
Proof.
  induction l as [|x l IH]; intros Hd i j k k' Hi Hj Hk.
  - destruct i; discriminate.
  - simpl in Hd. apply andb_prop in Hd. destruct Hd as [Hx Hl].
    apply negb_true_iff in Hx.
    destruct i as [|i], j as [|j]; simpl in *; auto.
    + injection Hi as <-. exfalso.
      assert (existsb (key_eqb x) l = true); [|congruence].
      apply existsb_exists. exists k'. split; auto.
      eapply nth_error_In; eauto.
    + injection Hj as <-. exfalso.
      assert (existsb (key_eqb x) l = true); [|congruence].
      apply existsb_exists. exists k. split.
      * eapply nth_error_In; eauto.
      * now rewrite key_eqb_sym.
    + f_equal. eapply IH; eauto.
Qed.

(** X6: factorize tells the labels of a text column apart: two cells get
    the same code exactly when they hold the same text or are both
    missing. *)
Theorem X6_codes_tell_labels_apart
        (cells : list (option string)) (i j : nat) (a b : option string) :
  nth_error cells i = Some a ->
  nth_error cells j = Some b ->
  nth_error (fst (factorize (ObjCol cells))) i
  = nth_error (fst (factorize (ObjCol cells))) j
  <-> a = b.
Proof.
  intros Hi Hj.
  destruct (factorize_text cells) as [_ Hcodes].
  pose proof (Hcodes i a Hi) as Ha. pose proof (Hcodes j b Hj) as Hb.
  pose proof (first_seen_distinct (column_keys (ObjCol cells))) as Hd.
  destruct a as [u|], b as [v|].
  - destruct Ha as (ja & Hca & Hua). destruct Hb as (jb & Hcb & Hub).
    rewrite Hca, Hcb. split.
    + intros [= E]. apply Nat2Z.inj in E. subst jb. congruence.
    + intros [= ->].
      rewrite (distinct_keys_nth _ Hd ja jb _ _ Hua Hub (key_eqb_refl _)).
      reflexivity.
  - destruct Ha as (ja & Hca & _). rewrite Hca, Hb.
    split; [intros [= E]; lia | discriminate].
  - destruct Hb as (jb & Hcb & _). rewrite Ha, Hcb.
    split; [intros [= E]; lia | discriminate].
  - rewrite Ha, Hb. tauto.
Qed.

Lemma X6_codes_tell_labels_apart_witness :
  nth_error (fst (factorize (ObjCol [Some "yes"; Some "no"; Some "yes"]))) 0
  = nth_error (fst (factorize (ObjCol [Some "yes"; Some "no"; Some "yes"]))) 2
  <-> Some "yes" = Some "yes".
Proof.
  apply (X6_codes_tell_labels_apart
           [Some "yes"; Some "no"; Some "yes"] 0 2 (Some "yes") (Some "yes"));
    reflexivity.
Defined.

(** X7: the codes of factorize index its table of labels.  Decoding gives
    the cell back (the label at the position of the code is the text of the
    cell), every code is -1 or below the number of labels, and every
    position of the table is the code of some cell. *)
Theorem X7_codes_index_labels (cells : list (option string)) :
  let codes := fst (factorize (ObjCol cells)) in
  let labels := snd (factorize (ObjCol cells)) in
  (forall i v,
     nth_error cells i = Some (Some v) ->
     exists j, nth_error codes i = Some (Z.of_nat j)
               /\ nth_error labels j = Some (KStr v))
  /\ (forall i c,
        nth_error codes i = Some c ->
        (-1 <= c < Z.of_nat (List.length labels))%Z)
  /\ (forall j,
        (j < List.length labels)%nat ->
        exists i, nth_error codes i = Some (Z.of_nat j)).
Proof.
  cbv zeta.
  destruct (factorize_text cells) as [Hlen Hcodes].
  assert (Hlabels : snd (factorize (ObjCol cells))
                    = first_seen (column_keys (ObjCol cells))).
  { unfold factorize. apply unique_first_seen. }
  rewrite Hlabels. split; [|split].
  - intros i v Hi. exact (Hcodes i (Some v) Hi).
  - intros i c Hc.
    assert (Hi : (i < List.length cells)%nat).
    { rewrite <- Hlen. apply nth_error_Some. congruence. }
    destruct (nth_error cells i) as [cell|] eqn:E;
      [|apply nth_error_None in E; lia].
    specialize (Hcodes i cell E). destruct cell as [v|].
    + destruct Hcodes as (j & Hj & Hl). rewrite Hj in Hc.
      injection Hc as <-.
      assert ((j < List.length (first_seen (column_keys (ObjCol cells))))%nat)
        by (apply nth_error_Some; congruence).
      lia.
    + rewrite Hcodes in Hc. injection Hc as <-. lia.
  - intros j Hj.
    destruct (nth_error (first_seen (column_keys (ObjCol cells))) j)
      as [k|] eqn:Ek; [|apply nth_error_None in Ek; lia].
    pose proof (first_seen_in _ _ (nth_error_In _ _ Ek)) as Hin.
    simpl in Hin. apply in_map_iff in Hin.
    destruct Hin as (cell & Hcell & Hin).
    destruct cell as [v|]; simpl in Hcell; [|discriminate].
    injection Hcell as <-.
    apply In_nth_error in Hin. destruct Hin as (i & Hi).
    destruct (Hcodes i (Some v) Hi) as (j' & Hc & Hl).
    exists i. rewrite Hc. do 2 f_equal.
    apply (distinct_keys_nth _ (first_seen_distinct _) j' j _ _ Hl Ek).
    apply key_eqb_refl.
Qed.

Lemma X7_codes_index_labels_witness :
  let cells := [Some "yes"; None; Some "no"; Some "yes"] in
  let codes := fst (factorize (ObjCol cells)) in
  let labels := snd (factorize (ObjCol cells)) in
  (forall i v,
     nth_error cells i = Some (Some v) ->
     exists j, nth_error codes i = Some (Z.of_nat j)
               /\ nth_error labels j = Some (KStr v))
  /\ (forall i c,
        nth_error codes i = Some c ->
        (-1 <= c < Z.of_nat (List.length labels))%Z)
  /\ (forall j,
        (j < List.length labels)%nat ->
        exists i, nth_error codes i = Some (Z.of_nat j)).
Proof.
  exact (X7_codes_index_labels [Some "yes"; None; Some "no"; Some "yes"]).
Defined.

(* ------------------------------------------------------------------ *)
(** ** Sorting puts the entries in order                               *)
(* ------------------------------------------------------------------ *)

Section SortOrder.
Context {A : Type} (leb : A -> A -> bool).
Hypothesis leb_total : forall x y, leb x y = false -> leb y x = true.

Lemma insert_hdrel (a x : A) (l : list A) :
  leb a x = true ->
  HdRel (fun u v => leb u v = true) a l ->
  HdRel (fun u v => leb u v = true) a (insert leb x l).
Proof.
  intros Hax Hal. destruct l as [|y l]; simpl.
  - now constructor.
  - destruct (leb x y); constructor; auto.
    now inversion Hal.
Qed.

Lemma insert_sorted (x : A) (l : list A) :
  Sorted (fun u v => leb u v = true) l ->
  Sorted (fun u v => leb u v = true) (insert leb x l).
Proof.
  induction 1 as [|y l Hl IH Hy]; simpl.
  - repeat constructor.
  - destruct (leb x y) eqn:E.
    + constructor; [constructor; auto | now constructor].
    + constructor; auto.
      apply insert_hdrel; auto.
Qed.

Lemma isort_sorted (l : list A) :
  Sorted (fun u v => leb u v = true) (isort leb l).
Proof.
  induction l as [|x l IH]; simpl.
  - constructor.
  - now apply insert_sorted.
Qed.
End SortOrder.

Lemma key_leb_total (a b : key) : key_leb a b = false -> key_leb b a = true.
Proof.
  destruct a as [x|x], b as [y|y]; simpl; auto.
  - intro H. apply Qle_bool_iff. apply Qlt_le_weak, Qnot_le_lt.
    intro Hle. apply Qle_bool_iff in Hle. congruence.
  - intro H. destruct (String.leb_total x y); congruence.
Qed.

(* ------------------------------------------------------------------ *)
(** ** The proportions and the dominant group                          *)
(* ------------------------------------------------------------------ *)

Lemma value_counts_entry (cells : list (option key)) (k : key) (c : nat) :
  In (k, c) (value_counts cells) ->
  In k (first_seen cells) /\ c = count_key k cells.
Proof.
  unfold value_counts. intro H.
  apply (Permutation_in _ (isort_perm _ _)) in H.
  apply in_map_iff in H. destruct H as (k' & [= <- <-] & Hk).
  now rewrite <- unique_first_seen.
Qed.

Lemma value_counts_normalize_entry (cells : list (option key))
      (k : key) (q : Q) :
  In (k, q) (value_counts_normalize cells) ->
  In k (first_seen cells)
  /\ q = inject_Z (Z.of_nat (count_key k cells))
         / inject_Z (Z.of_nat (List.length (filter present cells))).
Proof.
  unfold value_counts_normalize. rewrite value_counts_total. intro H.
  apply in_map_iff in H. destruct H as ([k' c] & [= <- <-] & Hin).
  apply value_counts_entry in Hin. destruct Hin as [Hk ->]. auto.
Qed.

Lemma count_key_pos (cells : list (option key)) (k : key) :
  In (Some k) cells -> (0 < count_key k cells)%nat.
Proof.
  unfold count_key. induction cells as [|c rest IH]; simpl; [tauto|].
  intros [->|H].
  - simpl. rewrite key_eqb_refl. simpl. lia.
  - specialize (IH H). destruct (cell_is k c); simpl; lia.
Qed.

Lemma count_key_le (cells : list (option key)) (k : key) :
  (count_key k cells <= List.length (filter present cells))%nat.
Proof.
  unfold count_key. induction cells as [|[c|] rest IH]; simpl; auto.
  destruct (key_eqb k c); simpl; lia.
Qed.

Lemma proportion_range (c total : nat) :
  (0 < c)%nat -> (c <= total)%nat ->
  0 < inject_Z (Z.of_nat c) / inject_Z (Z.of_nat total)
  /\ inject_Z (Z.of_nat c) / inject_Z (Z.of_nat total) <= 1.
Proof.
  intros Hc Hle.
  assert (Ht : 0 < inject_Z (Z.of_nat total)).
  { change 0 with (inject_Z 0). rewrite <- Zlt_Qlt. lia. }
  split.
  - apply Qlt_shift_div_l; auto. rewrite Qmult_0_l.
    change 0 with (inject_Z 0). rewrite <- Zlt_Qlt. lia.
  - apply Qle_shift_div_r; auto. rewrite Qmult_1_l.
    rewrite <- Zle_Qle. lia.
Qed.

(** X8: every proportion of the report is the number of rows with that
    label over the number of rows with any label (rows with a missing label
    are not counted on either side), so it lies above 0 and is at most 1. *)
Theorem X8_proportions_are_row_shares
        (df : DataFrame) (sensitive target : string) :
  valid_input df sensitive target = true ->
  exists r df' scol,
    bias_analysis sensitive target df = (inr r, df')
    /\ lookup_column sensitive (frame_columns df) = Some scol
    /\ forall k q,
         In (k, q) (rep r) ->
         q = inject_Z (Z.of_nat (count_key k (column_keys scol)))
             / inject_Z (Z.of_nat
                           (List.length (filter present (column_keys scol))))
         /\ 0 < q /\ q <= 1.
Proof.
  intro Hv.
  destruct (bias_analysis_valid df sensitive target Hv)
    as (enc & scol & vs & g & _ & Hs & _ & _ & _ & _ & Hrun).
  rewrite Hrun. eexists. eexists. exists scol.
  split; [reflexivity|]. split; [exact Hs|].
  unfold make_report. cbn [rep]. intros k q Hin.
  apply value_counts_normalize_entry in Hin. destruct Hin as [Hk ->].
  split; auto.
  apply proportion_range.
  - apply count_key_pos. now apply first_seen_in.
  - apply count_key_le.
Qed.

Lemma X8_proportions_are_row_shares_witness :
  exists r df' scol,
    bias_analysis "group" "label" Samples.one_group = (inr r, df')
    /\ lookup_column "group" (frame_columns Samples.one_group) = Some scol
    /\ forall k q,
         In (k, q) (rep r) ->
         q = inject_Z (Z.of_nat (count_key k (column_keys scol)))
             / inject_Z (Z.of_nat
                           (List.length (filter present (column_keys scol))))
         /\ 0 < q /\ q <= 1.
Proof.
  apply (X8_proportions_are_row_shares Samples.one_group "group" "label").
  reflexivity.
Defined.

Lemma argmax_greatest (s : list (key * Q)) (g : key * Q) :
  argmax s = Some g ->
  In g s /\ forall p, In p s -> snd p <= snd g.
Proof.
  revert g. induction s as [|p rest IH]; intros g; simpl; [discriminate|].
  destruct (argmax rest) as [b|] eqn:E.
  - destruct (IH b eq_refl) as [Hb Hmax].
    destruct (Qle_bool (snd b) (snd p)) eqn:L; intros [= <-].
    + apply Qle_bool_iff in L. split; auto.
      intros x [<-|Hx]; [apply Qle_refl|].
      eapply Qle_trans; [apply (Hmax x Hx) | exact L].
    + split; auto.
      intros x [<-|Hx]; [|now apply Hmax].
      apply Qlt_le_weak, Qnot_le_lt. intro H.
      apply Qle_bool_iff in H. congruence.
  - intros [= <-]. split; auto.
    intros x [<-|Hx]; [apply Qle_refl|].
    destruct rest as [|p0 rest']; [destruct Hx|].
    simpl in E.
    destruct (argmax rest') as [b|]; [destruct (Qle_bool _ _)|];
      discriminate.
Qed.

Lemma as_floats_values (s : list (key * Q)) (x : Q) :
  In (Some x) (map snd (as_floats s)) <-> exists k, In (k, x) s.
Proof.
  unfold as_floats. rewrite map_map. simpl. split.
  - intro H. apply in_map_iff in H. destruct H as ([k q] & [= <-] & Hin).
    eauto.
  - intros (k & Hin). apply in_map_iff. exists (k, x). auto.
Qed.

(** The largest proportion and the label that [idxmax] gives for it. *)
Lemma dominant_entry (s : list (key * Q)) (g : key * Q) :
  argmax s = Some g ->
  exists p,
    series_max (as_floats s) = Some p
    /\ snd g == p
    /\ (exists k, In (k, p) s)
    /\ forall k q, In (k, q) s -> q <= p.
Proof.
  intro Hg. destruct (argmax_greatest s g Hg) as [Hin Hmax].
  unfold series_max.
  destruct (nanmax (map snd (as_floats s))) as [p|] eqn:E.
  - exists p. split; auto.
    pose proof (nanmax_in _ _ E) as Hp. apply as_floats_values in Hp.
    assert (Hup : forall k q, In (k, q) s -> q <= p).
    { intros k q Hq. eapply nanmax_upper; eauto.
      apply as_floats_values. eauto. }
    repeat split; auto.
    destruct Hp as (k & Hk). destruct g as [kg qg]. simpl.
    apply Qle_antisym.
    + now apply (Hup kg).
    + apply (Hmax (k, p) Hk).
  - exfalso. apply nanmax_none in E.
    destruct g as [kg qg].
    assert (H : In qg (dropna (map snd (as_floats s)))).
    { apply dropna_in, as_floats_values. eauto. }
    rewrite E in H. destruct H.
Qed.

(** X9: the dominant ratio of the report is the largest of its proportions,
    the dominant group is a label that has it, and it lies above 0 and is
    at most 1. *)
Theorem X9_dominant_group_has_largest_share
        (df : DataFrame) (sensitive target : string) :
  valid_input df sensitive target = true ->
  exists r df' p q,
    bias_analysis sensitive target df = (inr r, df')
    /\ dominant_ratio r = Some p
    /\ In (dominant_group r, q) (rep r)
    /\ q == p
    /\ (forall k' q', In (k', q') (rep r) -> q' <= p)
    /\ 0 < p /\ p <= 1.
Proof.
  intro Hv.
  destruct (bias_analysis_valid df sensitive target Hv)
    as (enc & scol & vs & g & _ & Hs & _ & _ & _ & Hg & Hrun).
  rewrite Hrun.
  destruct (dominant_entry _ g Hg) as (p & Hp & Hgp & (k & Hk) & Hup).
  destruct (argmax_greatest _ g Hg) as [Hin _].
  eexists. eexists. exists p, (snd g). split; [reflexivity|].
  unfold make_report. cbn [dominant_ratio dominant_group rep].
  split; [exact Hp|]. split; [now rewrite <- surjective_pairing|].
  split; [exact Hgp|]. split; [exact Hup|].
  apply value_counts_normalize_entry in Hk. destruct Hk as [Hk ->].
  apply proportion_range.
  - apply count_key_pos. now apply first_seen_in.
  - apply count_key_le.
Qed.

Lemma X9_dominant_group_has_largest_share_witness :
  exists r df' p q,
    bias_analysis "group" "hired" Samples.scenario_a = (inr r, df')
    /\ dominant_ratio r = Some p
    /\ In (dominant_group r, q) (rep r)
    /\ q == p
    /\ (forall k' q', In (k', q') (rep r) -> q' <= p)
    /\ 0 < p /\ p <= 1.
Proof.
  apply (X9_dominant_group_has_largest_share
           Samples.scenario_a "group" "hired").
  reflexivity.
Defined.

(** X10: the approximate number of affected rows that the dashboard shows
    with the representation warning, [int(dominant_ratio * len(df))], is
    computed without error and lies between 0 and the number of rows. *)
Theorem X10_affected_rows_bounds
        (df : DataFrame) (sensitive target : string) :
  valid_input df sensitive target = true ->
  exists r df' n,
    bias_analysis sensitive target df = (inr r, df')
    /\ affected_rows r df' = inr n
    /\ (0 <= n <= Z.of_nat (index_len df'))%Z.
Proof.
  intro Hv.
  destruct (bias_analysis_valid df sensitive target Hv)
    as (enc & scol & vs & g & _ & Hs & _ & _ & _ & Hg & Hrun).
  rewrite Hrun.
  destruct (dominant_entry _ g Hg) as (p & Hp & _ & (k & Hk) & _).
  apply value_counts_normalize_entry in Hk. destruct Hk as [Hk Hpq].
  destruct (proportion_range (count_key k (column_keys scol))
              (List.length (filter present (column_keys scol))))
    as [Hpos Hle1].
  { apply count_key_pos. now apply first_seen_in. }
  { apply count_key_le. }
  rewrite <- Hpq in Hpos, Hle1.
  set (len := index_len (coerce_target target df)).
  assert (Hlen : 0 <= inject_Z (Z.of_nat len)).
  { change 0 with (inject_Z 0). rewrite <- Zle_Qle. lia. }
  assert (H0 : 0 <= p * inject_Z (Z.of_nat len)).
  { apply Qmult_le_0_compat; auto. now apply Qlt_le_weak. }
  assert (H1 : p * inject_Z (Z.of_nat len) <= inject_Z (Z.of_nat len)).
  { rewrite <- (Qmult_1_l (inject_Z (Z.of_nat len))) at 2.
    now apply Qmult_le_compat_r. }
  eexists. eexists. exists (Qfloor (p * inject_Z (Z.of_nat len))).
  split; [reflexivity|].
  unfold affected_rows, make_report. cbn [dominant_ratio].
  rewrite Hp. fold len. unfold fmul, py_int.
  rewrite (proj2 (Qle_bool_iff _ _) H0). split; [reflexivity|].
  split.
  - rewrite <- (Qfloor_Z 0). now apply Qfloor_resp_le.
  - rewrite <- (Qfloor_Z (Z.of_nat len)) at 2. now apply Qfloor_resp_le.
Qed.

Lemma X10_affected_rows_bounds_witness :
  exists r df' n,
    bias_analysis "group" "hired" Samples.scenario_a = (inr r, df')
    /\ affected_rows r df' = inr n
    /\ (0 <= n <= Z.of_nat (index_len df'))%Z.
Proof.
  apply (X10_affected_rows_bounds Samples.scenario_a "group" "hired").
  reflexivity.
Defined.

Example scenario_a_affected_rows :
  match bias_analysis "group" "hired" Samples.scenario_a with
  | (inr r, df') => affected_rows r df' = inr 8%Z
  | (inl _, _) => False
  end.
Proof. reflexivity. Qed.

(* ------------------------------------------------------------------ *)
(** ** The order of the two tables of the report                       *)
(* ------------------------------------------------------------------ *)

Lemma value_counts_sorted (cells : list (option key)) :
  StronglySorted (fun a b : key * nat => Nat.leb (snd b) (snd a) = true)
                 (value_counts cells).
Proof.
  apply Sorted_StronglySorted.
  - intros a b c Hab Hbc. apply Nat.leb_le in Hab, Hbc. apply Nat.leb_le. lia.
  - unfold value_counts.
    apply (isort_sorted (fun a b : key * nat => Nat.leb (snd b) (snd a))).
    intros x y H. apply Nat.leb_gt in H. apply Nat.leb_le. lia.
Qed.

Lemma value_counts_normalize_decreasing (cells : list (option key)) :
  decreasing (value_counts_normalize cells).
Proof.
  unfold decreasing, value_counts_normalize.
  generalize (list_sum (map snd (value_counts cells))). intro total.
  assert (Hmono : forall c1 c2 : nat,
             Nat.leb c2 c1 = true ->
             inject_Z (Z.of_nat c2) / inject_Z (Z.of_nat total)
             <= inject_Z (Z.of_nat c1) / inject_Z (Z.of_nat total)).
  { intros c1 c2 H. apply Nat.leb_le in H. unfold Qdiv.
    apply Qmult_le_compat_r.
    - rewrite <- Zle_Qle. lia.
    - apply Qinv_le_0_compat. change 0 with (inject_Z 0).
      rewrite <- Zle_Qle. lia. }
  induction (value_counts_sorted cells) as [|a l Hl IH Ha]; simpl.
  - constructor.
  - constructor; [exact IH|].
    apply Forall_map. eapply Forall_impl; [|exact Ha].
    intros b Hb. simpl. now apply Hmono.
Qed.

Lemma argmax_head (p : key * Q) (rest : list (key * Q)) :
  decreasing (p :: rest) -> argmax (p :: rest) = Some p.
Proof.
  intro H. inversion H as [|a l Hl Ha]; subst. simpl.
  destruct (argmax rest) as [b|] eqn:E; auto.
  destruct (argmax_greatest rest b E) as [Hb _].
  rewrite Forall_forall in Ha.
  now rewrite (proj2 (Qle_bool_iff _ _) (Ha b Hb)).
Qed.

Lemma Qmax_left (x m : Q) : m <= x -> Qmax x m = x.
Proof.
  intro H. unfold Qmax, GenericMinMax.gmax.
  destruct (x ?= m) eqn:E; auto.
  apply Qlt_alt in E. exfalso. apply (Qlt_not_le _ _ E H).
Qed.

Lemma series_max_head (p : key * Q) (rest : list (key * Q)) :
  decreasing (p :: rest) ->
  series_max (as_floats (p :: rest)) = Some (snd p).
Proof.
  intro H. inversion H as [|a l Hl Ha]; subst.
  unfold series_max. simpl.
  destruct (nanmax (map snd (as_floats rest))) as [m|] eqn:E; auto.
  apply nanmax_in, as_floats_values in E. destruct E as (k & Hk).
  rewrite Forall_forall in Ha.
  pose proof (Ha (k, m) Hk) as Hm. simpl in Hm.
  now rewrite (Qmax_left _ _ Hm).
Qed.

(** X11: the proportions of the report come in decreasing order, and the
    dominant group and the dominant ratio are the label and the proportion
    of its first entry. *)
Theorem X11_proportions_decrease
        (df : DataFrame) (sensitive target : string) :
  valid_input df sensitive target = true ->
  exists r df' k q rest,
    bias_analysis sensitive target df = (inr r, df')
    /\ rep r = (k, q) :: rest
    /\ decreasing (rep r)
    /\ dominant_group r = k
    /\ dominant_ratio r = Some q.
Proof.
  intro Hv.
  destruct (bias_analysis_valid df sensitive target Hv)
    as (enc & scol & vs & g & _ & _ & _ & _ & _ & Hg & Hrun).
  rewrite Hrun.
  pose proof (value_counts_normalize_decreasing (column_keys scol)) as Hdec.
  destruct (value_counts_normalize (column_keys scol)) as [|[k q] rest] eqn:E;
    [discriminate|].
  rewrite (argmax_head _ _ Hdec) in Hg. injection Hg as <-.
  eexists. eexists. exists k, q, rest. split; [reflexivity|].
  unfold make_report. cbn [rep dominant_group dominant_ratio].
  repeat split; auto.
  now rewrite (series_max_head _ _ Hdec).
Qed.

Lemma X11_proportions_decrease_witness :
  exists r df' k q rest,
    bias_analysis "group" "hired" Samples.scenario_a = (inr r, df')
    /\ rep r = (k, q) :: rest
    /\ decreasing (rep r)
    /\ dominant_group r = k
    /\ dominant_ratio r = Some q.
Proof.
  apply (X11_proportions_decrease Samples.scenario_a "group" "hired").
  reflexivity.
Defined.

Lemma group_means_labels (ks : list (option key)) (vs : list (option Q)) :
  map fst (group_means ks vs) = isort key_leb (unique ks).
Proof.
  unfold group_means. rewrite map_map. simpl. apply map_id.
Qed.

Lemma sorted_labels {B : Type} (f : key -> B) (l : list key) :
  Sorted (fun u v => key_leb u v = true) l ->
  Sorted (fun a b : key * B => key_leb (fst a) (fst b) = true)
         (map (fun k => (k, f k)) l).
Proof.
  induction 1 as [|x l Hl IH Hx]; simpl; constructor; auto.
  destruct Hx; simpl; constructor; auto.
Qed.

(** X12: the table of group means has one entry per group of the table of
    proportions (the same labels, each once), in the sort order of the
    labels. *)
Theorem X12_group_means_cover_groups
        (df : DataFrame) (sensitive target : string) :
  valid_input df sensitive target = true ->
  exists r df',
    bias_analysis sensitive target df = (inr r, df')
    /\ Permutation (map fst (label_dist r)) (map fst (rep r))
    /\ distinct_keys (map fst (label_dist r)) = true
    /\ label_sorted (label_dist r).
Proof.
  intro Hv.
  destruct (bias_analysis_valid df sensitive target Hv)
    as (enc & scol & vs & g & _ & _ & _ & _ & _ & _ & Hrun).
  rewrite Hrun. eexists. eexists. split; [reflexivity|].
  unfold make_report. cbn [rep label_dist].
  assert (Hperm : Permutation (map fst (group_means (column_keys scol) vs))
                              (first_seen (column_keys scol))).
  { rewrite group_means_labels, <- unique_first_seen. apply isort_perm. }
  repeat split.
  - eapply perm_trans; [exact Hperm|].
    apply Permutation_sym.
    rewrite value_counts_normalize_keys. apply value_counts_keys.
  - rewrite (distinct_keys_perm _ _ Hperm). apply first_seen_distinct.
  - unfold label_sorted, group_means. apply sorted_labels.
    apply isort_sorted. exact key_leb_total.
Qed.

Lemma X12_group_means_cover_groups_witness :
  exists r df',
    bias_analysis "group" "hired" Samples.scenario_a = (inr r, df')
    /\ Permutation (map fst (label_dist r)) (map fst (rep r))
    /\ distinct_keys (map fst (label_dist r)) = true
    /\ label_sorted (label_dist r).
Proof.
  apply (X12_group_means_cover_groups Samples.scenario_a "group" "hired").
  reflexivity.
Defined.

(* ------------------------------------------------------------------ *)
(** ** The group means                                                 *)
(* ------------------------------------------------------------------ *)

Lemma in_combine_left {A B : Type} (x : A) (l : list A) (l' : list B) :
  In x l -> (List.length l <= List.length l')%nat ->
  exists y, In (x, y) (combine l l').
Proof.
  revert l'. induction l as [|a l IH]; intros l' Hx Hlen; [destruct Hx|].
  destruct l' as [|b l']; simpl in Hlen; [lia|].
  destruct Hx as [->|Hx].
  - exists b. now left.
  - destruct (IH l' Hx) as (y & Hy); [lia|]. exists y. now right.
Qed.

Lemma group_values_from_target (k : key) (ks : list (option key))
      (vs : list (option Q)) (v : F) :
  In v (group_values k ks vs) -> In v vs.
Proof.
  unfold group_values. intro H.
  apply in_map_iff in H. destruct H as ([c w] & <- & Hin).
  apply filter_In in Hin. destruct Hin as [Hin _].
  eapply in_combine_r; eauto.
Qed.

(** A label of the column has a numeric mean if no target cell is
    missing. *)
Lemma group_mean_numeric (k : key) (ks : list (option key))
      (vs : list (option Q)) :
  In (Some k) ks ->
  (List.length ks <= List.length vs)%nat ->
  (forall v, In v vs -> v <> None) ->
  nanmean (group_values k ks vs) <> None.
Proof.
  intros Hk Hlen Hvs.
  destruct (in_combine_left _ _ vs Hk Hlen) as (v & Hv).
  assert (Hg : In v (group_values k ks vs)).
  { unfold group_values. apply in_map_iff. exists (Some k, v).
    split; auto. apply filter_In. split; auto.
    simpl. apply key_eqb_refl. }
  destruct v as [x|]; [|exfalso; eapply Hvs; eauto;
                         eapply in_combine_r; eauto].
  apply dropna_in in Hg. unfold nanmean.
  destruct (dropna (group_values k ks vs)); [destruct Hg | discriminate].
Qed.

Lemma group_means_entry (ks : list (option key)) (vs : list (option Q))
      (k : key) (m : F) :
  In (k, m) (group_means ks vs) ->
  In (Some k) ks /\ m = nanmean (group_values k ks vs).
Proof.
  unfold group_means. intro H.
  apply in_map_iff in H. destruct H as (k' & [= <- <-] & Hk).
  split; auto.
  apply first_seen_in. rewrite <- unique_first_seen.
  eapply Permutation_in; [apply isort_perm | exact Hk].
Qed.

Lemma column_keys_length (c : column) :
  List.length (column_keys c) = column_len c.
Proof. destruct c; simpl; apply length_map. Qed.

(** X13: when the target had to be encoded, no group mean is NaN and the
    statistical parity difference is a number greater than or equal to 0:
    the codes leave no cell missing (a missing cell has the code -1). *)
Theorem X13_encoded_target_has_means
        (df : DataFrame) (sensitive target : string) :
  valid_input df sensitive target = true ->
  wf_frame df = true ->
  exists r df',
    bias_analysis sensitive target df = (inr r, df')
    /\ (target_encoded r = true ->
        (forall k m, In (k, m) (label_dist r) -> m <> None)
        /\ exists z, spd r = Some z /\ 0 <= z).
Proof.
  intros Hv Hwf.
  destruct (bias_analysis_valid df sensitive target Hv)
    as (enc & scol & vs & g & He & Hs & Hval & _ & Ht1 & _ & Hrun).
  rewrite Hrun. eexists. eexists. split; [reflexivity|].
  unfold make_report. cbn [target_encoded label_dist spd].
  intros ->.
  rewrite ensure_numeric_target_run in He.
  unfold coerce_target in Ht1.
  destruct (lookup_column target (frame_columns df)) as [[v|cells]|] eqn:Et;
    try discriminate.
  simpl in Ht1. rewrite lookup_assign_same in Ht1.
  unfold codes_column in Ht1. injection Ht1 as <-.
  set (codes := fst (factorize (ObjCol cells))).
  set (vs := map (fun z => Some (inject_Z z)) codes).
  assert (Hnum : forall k m,
             In (k, m) (group_means (column_keys scol) vs) -> m <> None).
  { intros k m Hin. apply group_means_entry in Hin.
    destruct Hin as [Hk ->]. apply group_mean_numeric; auto.
    - rewrite column_keys_length, (wf_column_len df sensitive scol Hwf Hs).
      unfold vs, codes. rewrite length_map.
      pose proof (codes_column_len cells) as Hc.
      unfold codes_column in Hc. simpl in Hc. rewrite length_map in Hc.
      rewrite Hc.
      pose proof (wf_column_len df target (ObjCol cells) Hwf Et) as Hl.
      simpl in Hl. lia.
    - intros w Hw. unfold vs in Hw. apply in_map_iff in Hw.
      destruct Hw as (z & <- & _). discriminate. }
  split; [exact Hnum|].
  unfold series_max, series_min.
  destruct (nan_extrema (map snd (group_means (column_keys scol) vs)))
    as [(lo & hi & Hlo & Hhi & Hle)|(_ & _ & Hno)].
  - rewrite Hlo, Hhi. exists (hi - lo). split; auto. simpl. lra.
  - exfalso.
    destruct (group_means (column_keys scol) vs) as [|[k m] l] eqn:E.
    + unfold group_means in E. apply map_eq_nil, isort_nil in E.
      rewrite unique_first_seen in E.
      now apply (first_seen_nonempty _ Hval).
    + destruct m as [x|].
      * apply (Hno x). simpl. auto.
      * apply (Hnum k None); simpl; auto.
Qed.

Lemma X13_encoded_target_has_means_witness :
  exists r df',
    bias_analysis "group" "label" Samples.one_group = (inr r, df')
    /\ (target_encoded r = true ->
        (forall k m, In (k, m) (label_dist r) -> m <> None)
        /\ exists z, spd r = Some z /\ 0 <= z).
Proof.
  apply (X13_encoded_target_has_means Samples.one_group "group" "label");
    reflexivity.
Defined.

Lemma Qsum_bounds (a b : Q) (l : list Q) :
  (forall x, In x l -> a <= x /\ x <= b) ->
  a * inject_Z (Z.of_nat (List.length l)) <= Qsum l
  /\ Qsum l <= b * inject_Z (Z.of_nat (List.length l)).
Proof.
  induction l as [|x l IH]; intro H.
  - simpl. change (inject_Z 0) with 0. rewrite !Qmult_0_r.
    split; apply Qle_refl.
  - destruct IH as [IH1 IH2]; [intros y Hy; apply H; now right|].
    destruct (H x (or_introl eq_refl)) as [Hx1 Hx2].
    change (List.length (x :: l)) with (S (List.length l)).
    rewrite Nat2Z.inj_succ. unfold Z.succ. rewrite inject_Z_plus.
    change (Qsum (x :: l)) with (x + Qsum l).
    change (inject_Z 1) with 1.
    split; lra.
Qed.

(** The mean of a group lies within any bounds of the target cells. *)
Lemma nanmean_bounds (a b : Q) (l : list F) (m : Q) :
  (forall x, In (Some x) l -> a <= x /\ x <= b) ->
  nanmean l = Some m ->
  a <= m /\ m <= b.
Proof.
  intros H Hm. unfold nanmean in Hm.
  destruct (dropna l) as [|x t] eqn:E; [discriminate|].
  injection Hm as <-.
  destruct (Qsum_bounds a b (x :: t)) as [H1 H2].
  { intros y Hy. apply H. apply dropna_in. now rewrite E. }
  assert (Hpos : 0 < inject_Z (Z.of_nat (List.length (x :: t)))).
  { change 0 with (inject_Z 0). rewrite <- Zlt_Qlt. simpl. lia. }
  split.
  - now apply Qle_shift_div_l.
  - now apply Qle_shift_div_r.
Qed.

(** X14: with a numeric target whose cells are all 0 or 1, every group mean
    that is a number lies between 0 and 1, the statistical parity
    difference, when it is a number, lies between 0 and 1, and the
    disparate impact ratio is a number between 0 and 1. *)
Theorem X14_binary_target_ranges
        (df : DataFrame) (sensitive target : string)
        (vs : list (option Q)) :
  valid_input df sensitive target = true ->
  lookup_column target (frame_columns df) = Some (NumCol vs) ->
  (forall v, In (Some v) vs -> v == 0 \/ v == 1) ->
  exists r df',
    bias_analysis sensitive target df = (inr r, df')
    /\ (forall k m, In (k, Some m) (label_dist r) -> 0 <= m /\ m <= 1)
    /\ (forall z, spd r = Some z -> 0 <= z /\ z <= 1)
    /\ (exists d, di r = Some d /\ 0 <= d /\ d <= 1).
Proof.
  intros Hv Et Hbin.
  assert (Hrange : forall v, In (Some v) vs -> 0 <= v /\ v <= 1).
  { intros v Hin. destruct (Hbin v Hin) as [E|E]; rewrite E;
      split; discriminate. }
  destruct (bias_analysis_valid df sensitive target Hv)
    as (enc & scol & vs' & g & _ & _ & _ & _ & Ht1 & _ & Hrun).
  unfold coerce_target in Ht1. rewrite Et in Ht1.
  rewrite Et in Ht1. injection Ht1 as <-.
  rewrite Hrun. eexists. eexists. split; [reflexivity|].
  unfold make_report. cbn [label_dist spd di].
  set (ld := group_means (column_keys scol) vs).
  assert (Hmeans : forall k m, In (k, Some m) ld -> 0 <= m /\ m <= 1).
  { intros k m Hin. apply group_means_entry in Hin.
    destruct Hin as [_ Hm]. symmetry in Hm.
    apply (nanmean_bounds 0 1 (group_values k (column_keys scol) vs) m);
      auto.
    intros x Hx. apply Hrange.
    eapply group_values_from_target; eauto. }
  assert (Hval : forall m, In (Some m) (map snd ld) -> 0 <= m /\ m <= 1).
  { intros m Hm. apply in_map_iff in Hm.
    destruct Hm as ([k m'] & E & Hin). simpl in E. subst m'.
    now apply (Hmeans k). }
  split; [exact Hmeans|].
  unfold series_max, series_min.
  destruct (nan_extrema (map snd ld))
    as [(lo & hi & Hlo & Hhi & Hle)|(Hlo & Hhi & Hno)]; rewrite Hlo, Hhi.
  - destruct (Hval lo (nanmin_in _ _ Hlo)) as [Hlo0 Hlo1].
    destruct (Hval hi (nanmax_in _ _ Hhi)) as [Hhi0 Hhi1].
    split.
    + intros z Hz. simpl in Hz. injection Hz as <-. split; lra.
    + destruct (gt (Some hi) (Some 0)) eqn:G.
      * apply gt_true in G. rewrite (div_pos lo hi G).
        exists (lo / hi). split; [reflexivity|]. split.
        -- apply Qle_shift_div_l; auto. lra.
        -- apply Qle_shift_div_r; auto. lra.
      * exists 1. split; [reflexivity|]. split; discriminate.
  - split.
    + intros z Hz. discriminate.
    + simpl. exists 1. split; [reflexivity|]. split; discriminate.
Qed.

Lemma X14_binary_target_ranges_witness :
  exists r df',
    bias_analysis "group" "hired" Samples.scenario_a = (inr r, df')
    /\ (forall k m, In (k, Some m) (label_dist r) -> 0 <= m /\ m <= 1)
    /\ (forall z, spd r = Some z -> 0 <= z /\ z <= 1)
    /\ (exists d, di r = Some d /\ 0 <= d /\ d <= 1).
Proof.
  apply (X14_binary_target_ranges Samples.scenario_a "group" "hired"
           (map Some [1;1;1;1;1;1;1;0;1;0])).
  - reflexivity.
  - reflexivity.
  - intros v Hv. simpl in Hv.
    repeat (destruct Hv as [Hv|Hv];
            [injection Hv as <-; (left; reflexivity) || (right; reflexivity)|]).
    destruct Hv.
Defined.

(* ------------------------------------------------------------------ *)
(** ** Which inputs fail, and how                                      *)
(* ------------------------------------------------------------------ *)

(** After lines 32-36 the target column of the table is numeric. *)
Lemma target_numeric_after (target : string) (df : DataFrame) (c : column) :
  lookup_column target (frame_columns df) = Some c ->
  exists enc vs,
    ensure_numeric_target target df = (inr enc, coerce_target target df)
    /\ lookup_column target (frame_columns (coerce_target target df))
       = Some (NumCol vs).
Proof.
  intro Et. rewrite ensure_numeric_target_run. unfold coerce_target.
  rewrite Et. destruct c as [v|cells].
  - exists false, v. auto.
  - exists true. eexists. split; [reflexivity|].
    simpl. rewrite lookup_assign_same. reflexivity.
Qed.

(** X15: the analysis never fails with the TypeError of a mean over text
    (the reason for the encoding in lines 32-36): whatever the table and
    the two names, a failure is the KeyError of the target column, the
    KeyError of the sensitive column, or the ValueError of an empty table
    of proportions. *)
Theorem X15_failures_are_key_or_value_errors
        (df : DataFrame) (sensitive target : string) (e : exn) :
  fst (bias_analysis sensitive target df) = inl e ->
  e = KeyError target \/ e = KeyError sensitive \/ e = ValueError.
Proof.
  destruct (lookup_column target (frame_columns df)) as [c|] eqn:Et.
  - destruct (target_numeric_after target df c Et) as (enc & vs & He & Ht1).
    unfold bias_analysis, bind at 1. rewrite He.
    unfold bind, len, len_columns, getitem, idxmax, groupby_mean, bind,
      getitem, ret, raise.
    destruct (lookup_column sensitive
                (frame_columns (coerce_target target df))) eqn:Es; simpl.
    + destruct (argmax _); simpl.
      * rewrite Es, Ht1. simpl. discriminate.
      * intros [= <-]. auto.
    + intros [= <-]. auto.
  - unfold bias_analysis, bind at 1.
    rewrite ensure_numeric_target_run, Et. simpl. intros [= <-]. auto.
Qed.

Lemma X15_failures_are_key_or_value_errors_witness :
  KeyError "group" = KeyError "label"
  \/ KeyError "group" = KeyError "group"
  \/ KeyError "group" = ValueError.
Proof.
  exact (X15_failures_are_key_or_value_errors
           Samples.no_sensitive "group" "label" (KeyError "group") eq_refl).
Defined.

Lemma bias_analysis_invalid (df : DataFrame) (sensitive target : string) :
  sensitive <> target ->
  valid_input df sensitive target = false ->
  fst (bias_analysis sensitive target df)
  = inl (input_error df sensitive target).
Proof.
  intros Hne Hv. unfold input_error, has_column.
  destruct (lookup_column target (frame_columns df)) as [c|] eqn:Et.
  - destruct (target_numeric_after target df c Et) as (enc & vs & He & _).
    assert (Hs1 : lookup_column sensitive
                    (frame_columns (coerce_target target df))
                  = lookup_column sensitive (frame_columns df)).
    { unfold coerce_target. rewrite Et.
      destruct c; auto. simpl. now apply lookup_assign_other. }
    destruct (lookup_column sensitive (frame_columns df)) as [scol|] eqn:Es.
    + assert (Hk : first_seen (column_keys scol) = []).
      { apply no_value_first_seen.
        unfold valid_input, has_column, column_has_value in Hv.
        rewrite Et, Es in Hv.
        destruct (String.eqb sensitive target) eqn:E.
        - apply String.eqb_eq in E. congruence.
        - exact Hv. }
      now rewrite (bias_analysis_no_value _ _ _ _ _ _ He Hs1 Hk).
    + now rewrite (bias_analysis_no_sensitive _ _ _ _ _ He Hs1).
  - unfold bias_analysis, bind at 1.
    now rewrite ensure_numeric_target_run, Et.
Qed.

(** X16: called with two different column names, the analysis returns a
    report exactly when both columns are in the table and the sensitive
    column has at least one value; otherwise it raises the KeyError of the
    first absent column (target before sensitive) or, with both present, a
    ValueError. *)
Theorem X16_report_iff_valid (df : DataFrame) (sensitive target : string) :
  sensitive <> target ->
  ((exists r, fst (bias_analysis sensitive target df) = inr r)
   <-> valid_input df sensitive target = true)
  /\ (valid_input df sensitive target = false ->
      fst (bias_analysis sensitive target df)
      = inl (input_error df sensitive target)).
Proof.
  intro Hne. split; [|now apply bias_analysis_invalid].
  split.
  - intros (r & Hr).
    destruct (valid_input df sensitive target) eqn:Hv; auto.
    rewrite (bias_analysis_invalid df sensitive target Hne Hv) in Hr.
    discriminate.
  - intro Hv.
    destruct (bias_analysis_valid df sensitive target Hv)
      as (enc & scol & vs & g & _ & _ & _ & _ & _ & _ & Hrun).
    rewrite Hrun. eexists. reflexivity.
Qed.

Lemma X16_report_iff_valid_witness :
  ((exists r, fst (bias_analysis "group" "score" Samples.blank_target) = inr r)
   <-> valid_input Samples.blank_target "group" "score" = true)
  /\ (valid_input Samples.blank_target "group" "score" = false ->
      fst (bias_analysis "group" "score" Samples.blank_target)
      = inl (input_error Samples.blank_target "group" "score")).
Proof.
  apply (X16_report_iff_valid Samples.blank_target "group" "score").
  discriminate.
Defined.

(* ------------------------------------------------------------------ *)
(** ** What the flags of a report say                                  *)
(* ------------------------------------------------------------------ *)

(** X17: a report without any number among its group means (every target
    cell of every group missing) has a NaN statistical parity difference;
    a report whose statistical parity difference is NaN sets neither the
    label flag nor the fairness flag, is never of HIGH risk, and its
    disparate impact ratio, when it is a number, is 1. *)
Theorem X17_no_mean_no_flag (df : DataFrame) (sensitive target : string) :
  valid_input df sensitive target = true ->
  exists r df',
    bias_analysis sensitive target df = (inr r, df')
    /\ ((forall m, ~ In (Some m) (map snd (label_dist r))) -> spd r = None)
    /\ (spd r = None ->
        label_issue r = false
        /\ fairness_issue r = false
        /\ (forall d, di r = Some d -> d == 1)
        /\ risk_level r <> HIGH).
Proof.
  intro Hv.
  destruct (bias_analysis_valid df sensitive target Hv)
    as (enc & scol & vs & g & _ & _ & _ & _ & _ & _ & Hrun).
  rewrite Hrun. eexists. eexists. split; [reflexivity|].
  unfold make_report, risk_level.
  cbn [spd label_dist label_issue fairness_issue di traffic].
  set (ld := group_means (column_keys scol) vs).
  unfold series_max, series_min.
  destruct (nan_extrema (map snd ld))
    as [(lo & hi & Hlo & Hhi & Hle)|(Hlo & Hhi & Hno)]; rewrite Hlo, Hhi.
  - split.
    + intro Hno. exfalso. apply (Hno hi). now apply nanmax_in.
    + discriminate.
  - split; [reflexivity|]. intros _. simpl.
    repeat split; auto.
    + intros d Hd. injection Hd as <-. reflexivity.
    + destruct (gt _ (Some (7 # 10))); simpl; discriminate.
Qed.

Lemma X17_no_mean_no_flag_witness :
  exists r df',
    bias_analysis "group" "score" Samples.blank_target = (inr r, df')
    /\ ((forall m, ~ In (Some m) (map snd (label_dist r))) -> spd r = None)
    /\ (spd r = None ->
        label_issue r = false
        /\ fairness_issue r = false
        /\ (forall d, di r = Some d -> d == 1)
        /\ risk_level r <> HIGH).
Proof.
  apply (X17_no_mean_no_flag Samples.blank_target "group" "score").
  reflexivity.
Defined.

(** X18: what LOW risk guarantees: in a report of LOW risk the dominant
    ratio is at most 0.7, the disparate impact ratio, when it is a number,
    is at least 0.8, and the statistical parity difference, when it is a
    number, is at most 0.1. *)
Theorem X18_low_risk_bounds (df : DataFrame) (sensitive target : string) :
  valid_input df sensitive target = true ->
  exists r df',
    bias_analysis sensitive target df = (inr r, df')
    /\ (risk_level r = LOW ->
        (exists p, dominant_ratio r = Some p /\ p <= 7 # 10)
        /\ (forall d, di r = Some d -> 8 # 10 <= d)
        /\ (forall z, spd r = Some z -> z <= 1 # 10)).
Proof.
  intro Hv.
  destruct (bias_analysis_valid df sensitive target Hv)
    as (enc & scol & vs & g & _ & _ & _ & _ & _ & Hg & Hrun).
  rewrite Hrun. eexists. eexists. split; [reflexivity|].
  destruct (dominant_entry _ g Hg) as (p & Hp & _).
  unfold make_report, risk_level.
  cbn [traffic dominant_ratio di spd].
  rewrite Hp.
  set (d0 := if gt (series_max (group_means (column_keys scol) vs)) (Some 0)
             then div (series_min (group_means (column_keys scol) vs))
                      (series_max (group_means (column_keys scol) vs))
             else Some 1).
  destruct (gt (Some p) (Some (7 # 10))) eqn:G1;
    destruct (gt (sub _ _) (Some (2 # 10))) eqn:G2;
    destruct (gt (sub _ _) (Some (1 # 10))) eqn:G3;
    destruct (lt d0 (Some (8 # 10))) eqn:G4;
    simpl; try discriminate.
  intros _. apply gt_false in G1.
  split; [eauto|]. split.
  - intros d Hd. rewrite Hd in G4. unfold lt in G4.
    now apply gt_false in G4.
  - intros z Hz. rewrite Hz in G3. now apply gt_false in G3.
Qed.

Lemma X18_low_risk_bounds_witness :
  exists r df',
    bias_analysis "group" "label" Samples.scenario_c = (inr r, df')
    /\ (risk_level r = LOW ->
        (exists p, dominant_ratio r = Some p /\ p <= 7 # 10)
        /\ (forall d, di r = Some d -> 8 # 10 <= d)
        /\ (forall z, spd r = Some z -> z <= 1 # 10)).
Proof.
  apply (X18_low_risk_bounds Samples.scenario_c "group" "label").
  reflexivity.
Defined.

Lemma share_above_seven_tenths (c total : nat) :
  (0 < total)%nat ->
  (7 # 10 < inject_Z (Z.of_nat c) / inject_Z (Z.of_nat total)
   <-> (7 * total < 10 * c)%nat).
Proof.
  intro Ht.
  assert (Hpos : 0 < inject_Z (Z.of_nat total)).
  { change 0 with (inject_Z 0). rewrite <- Zlt_Qlt. lia. }
  assert (Hne : ~ inject_Z (Z.of_nat total) == 0).
  { intro E. rewrite E in Hpos. apply (Qlt_irrefl _ Hpos). }
  rewrite <- (Qmult_lt_r _ _ _ Hpos).
  assert (E : inject_Z (Z.of_nat c) / inject_Z (Z.of_nat total)
              * inject_Z (Z.of_nat total) == inject_Z (Z.of_nat c)).
  { unfold Qdiv. rewrite <- Qmult_assoc, (Qmult_comm (/ _)).
    rewrite Qmult_inv_r; auto. apply Qmult_1_r. }
  rewrite E. unfold Qlt, Qmult, inject_Z. cbn [Qnum Qden]. lia.
Qed.

(** X19: the representation flag is set exactly when the dominant group
    holds more than seven tenths of the rows that have a label: rows whose
    sensitive cell is missing count neither for the group nor for the
    total. *)
Theorem X19_representation_flag_in_rows
        (df : DataFrame) (sensitive target : string) :
  valid_input df sensitive target = true ->
  exists r df' scol,
    bias_analysis sensitive target df = (inr r, df')
    /\ lookup_column sensitive (frame_columns df) = Some scol
    /\ (rep_issue r = true
        <-> (7 * List.length (filter present (column_keys scol))
             < 10 * count_key (dominant_group r) (column_keys scol))%nat).
Proof.
  intro Hv.
  destruct (bias_analysis_valid df sensitive target Hv)
    as (enc & scol & vs & g & _ & Hs & Hval & _ & _ & Hg & Hrun).
  rewrite Hrun. eexists. eexists. exists scol.
  split; [reflexivity|]. split; [exact Hs|].
  pose proof (value_counts_normalize_decreasing (column_keys scol)) as Hdec.
  unfold make_report. cbn [rep_issue dominant_group].
  destruct (value_counts_normalize (column_keys scol)) as [|[k q] rest] eqn:E;
    [discriminate|].
  rewrite (argmax_head _ _ Hdec) in Hg. injection Hg as <-.
  rewrite (series_max_head _ _ Hdec). cbn [fst snd].
  assert (Hin : In (k, q) (value_counts_normalize (column_keys scol)))
    by (rewrite E; now left).
  apply value_counts_normalize_entry in Hin. destruct Hin as [_ ->].
  rewrite gt_true. apply share_above_seven_tenths.
  now apply length_filter_present.
Qed.

Lemma X19_representation_flag_in_rows_witness :
  exists r df' scol,
    bias_analysis "group" "label" Samples.one_group = (inr r, df')
    /\ lookup_column "group" (frame_columns Samples.one_group) = Some scol
    /\ (rep_issue r = true
        <-> (7 * List.length (filter present (column_keys scol))
             < 10 * count_key (dominant_group r) (column_keys scol))%nat).
Proof.
  apply (X19_representation_flag_in_rows Samples.one_group "group" "label").
  reflexivity.
Defined.
